(** * ted: line classification, joining and formatting

    A shallow embedding of [ted.go]: the classifier [readline], the joiner
    [readlines] with its [concat], and the formatter [format].

    Go strings are byte sequences; they are modelled as [list ascii].  Go's
    [int] is a 64-bit integer modelled in [Z]; the arithmetic on [indent] and
    on the flags is wrapped explicitly.  A run-time panic (slice bounds out of
    range, integer division by zero, a negative width given to the column
    writer) is the [None] of the option monad. *)

From Stdlib Require Import Ascii ZArith Lia.
From stdpp Require Import base option list numbers strings.

Open Scope Z_scope.

(** ** Go strings, integers and slices *)

Definition gostring := list ascii.

Definition lit (s : string) : gostring := String.list_ascii_of_string s.

Definition len (s : gostring) : Z := Z.of_nat (length s).

Definition byteZ (c : ascii) : Z := Z.of_N (N_of_ascii c).

Definition wrap64 (z : Z) : Z := (z + 2 ^ 63) mod 2 ^ 64 - 2 ^ 63.

(** [s[lo:hi]]: panics unless [0 <= lo <= hi <= len(s)]. *)
Definition slice (s : gostring) (lo hi : Z) : option gostring :=
  if (0 <=? lo) && (lo <=? hi) && (hi <=? len s)
  then Some (take (Z.to_nat (hi - lo)) (drop (Z.to_nat lo) s))
  else None.

(** [a % b] on [int]: truncated remainder, panics on a zero divisor. *)
Definition gorem (a b : Z) : option Z :=
  if b =? 0 then None else Some (Z.rem a b).

Definition HasSuffix (s suffix : gostring) : bool :=
  bool_decide (drop (length s - length suffix)%nat s = suffix).

Definition Repeat (c : ascii) (n : nat) : gostring := replicate n c.

Definition tab : ascii := ascii_of_nat 9.
Definition nl : ascii := ascii_of_nat 10.
Definition sp : ascii := ascii_of_nat 32.
Definition backslash : ascii := ascii_of_nat 92.

(** ** Runes: [for i, r := range text] and [unicode.IsSpace] *)

Definition RuneError : Z := 0xFFFD.

Definition contb (b : Z) : bool := (0x80 <=? b) && (b <=? 0xBF).

(** The rune that starts at the head of [s] and its size in bytes; an
    invalid or truncated encoding yields [RuneError] of size one. *)
Definition decoderune (s : gostring) : Z * nat :=
  match s with
  | [] => (RuneError, 1%nat)
  | c0 :: s1 =>
    let b0 := byteZ c0 in
    if b0 <? 0x80 then (b0, 1%nat)
    else if (0xC0 <=? b0) && (b0 <? 0xE0) then
      match s1 with
      | c1 :: _ =>
        let r := Z.lor (Z.shiftl (Z.land b0 0x1F) 6) (Z.land (byteZ c1) 0x3F) in
        if contb (byteZ c1) && (0x7F <? r) then (r, 2%nat) else (RuneError, 1%nat)
      | _ => (RuneError, 1%nat)
      end
    else if (0xE0 <=? b0) && (b0 <? 0xF0) then
      match s1 with
      | c1 :: c2 :: _ =>
        let r := Z.lor (Z.lor (Z.shiftl (Z.land b0 0x0F) 12)
                              (Z.shiftl (Z.land (byteZ c1) 0x3F) 6))
                       (Z.land (byteZ c2) 0x3F) in
        if contb (byteZ c1) && contb (byteZ c2) && (0x7FF <? r)
           && negb ((0xD800 <=? r) && (r <=? 0xDFFF))
        then (r, 3%nat) else (RuneError, 1%nat)
      | _ => (RuneError, 1%nat)
      end
    else if (0xF0 <=? b0) && (b0 <? 0xF8) then
      match s1 with
      | c1 :: c2 :: c3 :: _ =>
        let r := Z.lor (Z.lor (Z.lor (Z.shiftl (Z.land b0 0x07) 18)
                                     (Z.shiftl (Z.land (byteZ c1) 0x3F) 12))
                              (Z.shiftl (Z.land (byteZ c2) 0x3F) 6))
                       (Z.land (byteZ c3) 0x3F) in
        if contb (byteZ c1) && contb (byteZ c2) && contb (byteZ c3)
           && (0xFFFF <? r) && (r <=? 0x10FFFF)
        then (r, 4%nat) else (RuneError, 1%nat)
      | _ => (RuneError, 1%nat)
      end
    else (RuneError, 1%nat)
  end.

(** The pairs [(i, r)] a [range] loop over the string yields: [i] is the byte
    offset of the rune [r].  [skip] counts the bytes of the current rune that
    are still to be passed over. *)
Fixpoint runes_from (i : Z) (skip : nat) (s : gostring) : list (Z * Z) :=
  match s with
  | [] => []
  | _ :: s' =>
    match skip with
    | S k => runes_from (i + 1) k s'
    | O => let '(r, size) := decoderune s in
           (i, r) :: runes_from (i + 1) (size - 1)%nat s'
    end
  end.

Definition range (s : gostring) : list (Z * Z) := runes_from 0 0%nat s.

Definition IsSpace (r : Z) : bool :=
  if (0 <=? r) && (r <=? 0xFF) then
    (r =? 9) || (r =? 10) || (r =? 11) || (r =? 12) || (r =? 13) || (r =? 32)
    || (r =? 0x85) || (r =? 0xA0)
  else
    (r =? 0x1680) || ((0x2000 <=? r) && (r <=? 0x200A)) || (r =? 0x2028)
    || (r =? 0x2029) || (r =? 0x202F) || (r =? 0x205F) || (r =? 0x3000).

(** ** The flags *)

Module Flag.

Record flags := { length : Z; tabstop : Z; join : bool }.

(** [-l 120 -t 4], no [-j]. *)
Definition default : flags :=
  {| length := 120; tabstop := 4; join := false |}.

End Flag.

(** ** Lines *)

Record line := Line {
  text : gostring;
  indent : Z;
  indented : bool;
  incomplete : bool;
  blank : bool;
  tabular : bool;
  quoted : bool
}.

Definition concat (l r : line) : line :=
  let becomesTabular := tabular l || tabular r || quoted r in
  {| text := text l ++ [sp] ++ text r;
     indent := indent l;
     indented := indented l;
     incomplete := incomplete r;
     blank := blank l && blank r;
     tabular := becomesTabular;
     quoted := quoted l && negb becomesTabular |}.

(** The variables of the scanning loop of [readline]. *)
Record scan := Scan {
  s_indent : Z;
  s_indentChars : Z;
  s_lastTab : Z;
  s_tabCount : Z;
  s_inIndent : bool
}.

Definition scan0 : scan := Scan 0 0 0 0 true.

(** One iteration of the loop, at byte offset [i] with rune [r].  The
    counters are bounded by the length of the text and cannot overflow; the
    indentation is multiplied by the tab stop and is wrapped. *)
Definition scan_step (ts : Z) (st : scan) (ir : Z * Z) : option scan :=
  let '(i, r) := ir in
  if r =? 9 then
    if s_inIndent st then
      let indent1 := wrap64 (s_indent st + ts) in
      m ← gorem indent1 ts;
      Some (Scan (wrap64 (indent1 - m)) (s_indentChars st + 1) i
                 (s_tabCount st + 1) true)
    else
      Some (Scan (s_indent st) (s_indentChars st) i (s_tabCount st + 1) false)
  else if IsSpace r then
    if s_inIndent st then
      Some (Scan (wrap64 (s_indent st + 1)) (s_indentChars st + 1)
                 (s_lastTab st) (s_tabCount st) true)
    else Some st
  else
    Some (Scan (s_indent st) (s_indentChars st) (s_lastTab st) (s_tabCount st)
               false).

Fixpoint scan_loop (ts : Z) (st : scan) (irs : list (Z * Z)) : option scan :=
  match irs with
  | [] => Some st
  | ir :: irs' => st' ← scan_step ts st ir; scan_loop ts st' irs'
  end.

(** The raw line with the final backslash stripped, and whether it had one. *)
Definition strip (raw : gostring) : gostring * bool :=
  if HasSuffix raw [backslash]
  then (take (length raw - 1)%nat raw, true)
  else (raw, false).

(** [readline] on the string the line source returned ([cstr != nil]); the
    end of input is the end of the list of raw lines in [readlines]. *)
Definition readline (ts : Z) (raw : gostring) : option line :=
  let '(txt, incompl) := strip raw in
  st ← scan_loop ts scan0 (range txt);
  let blank := s_inIndent st in
  let quoted := negb blank && (0 <? s_tabCount st)
                && (s_lastTab st + 1 =? s_tabCount st) in
  let tabular := negb blank && (0 <? s_tabCount st) && negb quoted in
  body ← slice txt (s_indentChars st) (len txt);
  Some {| text := body;
          indent := s_indent st;
          indented := 0 <? s_indent st;
          incomplete := incompl;
          blank := blank;
          tabular := tabular;
          quoted := quoted |}.

(** ** Reading all the lines *)

(** [lines] holds the pointees of the slice of line pointers, in order;
    [prevLine] is the index of the line [prevLine] points to. *)
Record rstate := RState { lines : list line; prevLine : option nat }.

Definition rstate0 : rstate := RState [] None.

Definition append_line (st : rstate) (currLine : line) : rstate :=
  RState (lines st ++ [currLine]) (Some (length (lines st))).

Definition readlines_step (j : bool) (st : rstate) (currLine : line)
  : option rstate :=
  match prevLine st with
  | Some p =>
    prev ← lines st !! p;
    if negb (blank currLine) && (incomplete prev || j)
    then Some (RState (<[p := concat prev currLine]> (lines st)) (Some p))
    else Some (append_line st currLine)
  | None => Some (append_line st currLine)
  end.

Fixpoint readlines_loop (f : Flag.flags) (st : rstate) (raws : list gostring)
  : option rstate :=
  match raws with
  | [] => Some st
  | raw :: raws' =>
    currLine ← readline (Flag.tabstop f) raw;
    st' ← readlines_step (Flag.join f) st currLine;
    readlines_loop f st' raws'
  end.

Definition readlines (f : Flag.flags) (raws : list gostring)
  : option (list line) :=
  st ← readlines_loop f rstate0 raws; Some (lines st).

(** ** Word wrap, margin and the column writer

    [text.Wrap] and [text.Indent] come from a package the program imports and
    [tabwriter] from the Go library; none of them is among the sources. *)

Definition isspace (c : ascii) : bool :=
  let b := byteZ c in (b =? 32) || ((9 <=? b) && (b <=? 13)).

Fixpoint Join (ss : list gostring) (sep : gostring) : gostring :=
  match ss with
  | [] => []
  | s :: ss' =>
    match ss' with
    | [] => s
    | _ => s ++ sep ++ Join ss' sep
    end
  end.

Definition unwords (row : list gostring) : gostring := Join row [sp].
Definition unlines (rows : list gostring) : gostring := Join rows [nl].

(** Modelled from the spec: the splitting of [text.Wrap], which is missing:
    the words are the maximal runs without whitespace, so that consecutive
    whitespace is normalised to one space when the rows are put together.
    [w] is the word read so far. *)
Fixpoint words_aux (w : gostring) (s : gostring) : list gostring :=
  match s with
  | [] => match w with [] => [] | _ => [w] end
  | c :: s' =>
    if isspace c
    then match w with [] => words_aux [] s' | _ => w :: words_aux [] s' end
    else words_aux (w ++ [c]) s'
  end.

Definition words (s : gostring) : list gostring := words_aux [] s.

(** Modelled from the spec: the row filling of [text.Wrap], which is missing:
    a word joins the current row when the row stays within the limit, and
    starts a new row otherwise; a word wider than the limit has a row of its
    own.  The width of a row is the number of bytes of its rendering. *)
Fixpoint fill (lim : Z) (row : list gostring) (ws : list gostring)
  : list (list gostring) :=
  match ws with
  | [] => [row]
  | w :: ws' =>
    if len (unwords (row ++ [w])) <=? lim
    then fill lim (row ++ [w]) ws'
    else row :: fill lim [w] ws'
  end.

Definition wrapWords (lim : Z) (ws : list gostring) : list (list gostring) :=
  match ws with
  | [] => []
  | w :: ws' => fill lim [w] ws'
  end.

Definition wrapRows (s : gostring) (lim : Z) : list (list gostring) :=
  wrapWords lim (words s).

(** Modelled from the spec: [text.Wrap], which is missing: the rows of words
    joined with single spaces, the rows joined with newlines. *)
Definition Wrap (s : gostring) (lim : Z) : gostring :=
  unlines (map unwords (wrapRows s lim)).

(** Modelled from the spec: [text.Indent], which is missing: the prefix is
    put in front of every row.  [bol] holds at the beginning of a row. *)
Fixpoint Indent_from (bol : bool) (s prefix : gostring) : gostring :=
  match s with
  | [] => []
  | c :: s' =>
    (if bol then prefix else [])
      ++ c :: Indent_from (bool_decide (c = nl)) s' prefix
  end.

Definition Indent (s prefix : gostring) : gostring := Indent_from true s prefix.

(** The fields of a row of the column writer: the text between tabs. *)
Fixpoint split_on (sep : ascii) (cur : gostring) (s : gostring)
  : list gostring :=
  match s with
  | [] => [cur]
  | c :: s' =>
    if bool_decide (c = sep) then cur :: split_on sep [] s'
    else split_on sep (cur ++ [c]) s'
  end.

(** The lines the column writer holds: the newline-terminated pieces of the
    bytes written to it since the last flush. *)
Fixpoint buffered (cur : gostring) (s : gostring) : list gostring :=
  match s with
  | [] => []
  | c :: s' =>
    if bool_decide (c = nl) then cur :: buffered [] s'
    else buffered (cur ++ [c]) s'
  end.

Definition tabRows (written : gostring) : list (list gostring) :=
  map (split_on tab []) (buffered [] written).

Definition fieldWidth (row : list gostring) (j : nat) : Z :=
  match row !! j with
  | Some f => len f
  | None => 0
  end.

(** Modelled from the spec: the column width of the tabular renderer, which
    is missing: the maximum field width among the buffered lines that have a
    field at that index, plus one separator space. *)
Definition colWidth (rows : list (list gostring)) (j : nat) : Z :=
  foldr Z.max 0 (map (fun row => fieldWidth row j) rows) + 1.

Definition pad (f : gostring) (w : Z) : gostring :=
  f ++ Repeat sp (Z.to_nat (w - len f)).

Definition renderCells (rows : list (list gostring)) (row : list gostring)
  : list gostring :=
  imap (fun j f => pad f (colWidth rows j)) row.

(** Modelled from the spec: the flush of the tabular renderer, which is
    missing: every buffered line with its fields left-justified and padded
    with spaces to the width of their column. *)
Definition tabrender (written : gostring) : gostring :=
  let rows := tabRows written in
  List.concat (map (fun row => List.concat (renderCells rows row) ++ [nl]) rows).

(** ** The formatter *)

Definition spaces : gostring := Repeat sp 256.
Definition ats : gostring := Repeat (ascii_of_nat 64) 256.

(** [tabw] is what the column writer holds, [buf] the output buffer. *)
Record fstate := FState { tabw : gostring; buf : gostring }.

Definition fstate0 : fstate := FState [] [].

Definition Flush (st : fstate) : fstate :=
  FState [] (buf st ++ tabrender (tabw st)).

(** The [switch] of [format]: what is written to the buffer for a line that
    is not tabular, before the final newline. *)
Definition format_switch (f : Flag.flags) (l : line) : option gostring :=
  if blank l then Some []
  else if quoted l then
    let t := Wrap (text l)
               (wrap64 (Flag.length f - wrap64 (Flag.tabstop f * 2))) in
    margin ← slice spaces 0 (Flag.tabstop f);
    Some (Indent t margin)
  else if indented l then
    filler ← slice ats 0 (indent l);
    let t := Wrap (filler ++ text l) (Flag.length f) in
    margin ← slice spaces 0 (indent l);
    rest ← slice t (indent l) (len t);
    Some (margin ++ rest)
  else Some (Wrap (text l) (Flag.length f)).

(** One iteration of the loop of [format]. *)
Definition format_line (f : Flag.flags) (l : line) (st : fstate)
  : option fstate :=
  if tabular l then Some (FState (tabw st ++ text l ++ [nl]) (buf st))
  else
    let st1 := Flush st in
    t ← format_switch f l;
    Some (FState (tabw st1) (buf st1 ++ t ++ [nl])).

Fixpoint format_loop (f : Flag.flags) (ls : list line) (st : fstate)
  : option fstate :=
  match ls with
  | [] => Some st
  | l :: ls' => st' ← format_line f l st; format_loop f ls' st'
  end.

(** [tabwriter.NewWriter(buf, minwidth, tabwidth, padding, ' ', 0)]: the
    writer holds nothing yet; it panics on a negative width or padding. *)
Definition NewWriter (minwidth tabwidth padding : Z) : option fstate :=
  if (minwidth <? 0) || (tabwidth <? 0) || (padding <? 0)
  then None
  else Some fstate0.

Definition format (f : Flag.flags) (ls : list line) : option gostring :=
  st0 ← NewWriter (Flag.tabstop f) (Flag.tabstop f) 1;
  st ← format_loop f ls st0;
  Some (buf (Flush st)).

(** The whole program: the output for the raw lines typed before the end of
    input. *)
Definition ted (f : Flag.flags) (raws : list gostring) : option gostring :=
  ls ← readlines f raws; format f ls.

(** ** The properties *)

(** The invariant of the flags of a line. *)
Definition line_inv (l : line) : Prop :=
  (tabular l && quoted l = false)
  /\ (blank l = true -> tabular l = false /\ quoted l = false).

(** The logical lines: a classified raw line, or the merge of two logical
    lines. *)
Inductive Logical (ts : Z) : line -> Prop :=
| Logical_fresh raw l : readline ts raw = Some l -> Logical ts l
| Logical_merge l r : Logical ts l -> Logical ts r -> Logical ts (concat l r).

(** [prevLine] is nil before the first line and points to the last line of
    the slice afterwards. *)
Definition state_ok (st : rstate) : Prop :=
  match prevLine st with
  | None => lines st = []
  | Some p => S p = length (lines st)
  end.

(** The line [prevLine] points to. *)
Definition prev_of (st : rstate) : option line :=
  p ← prevLine st; lines st !! p.

(** A row is within the limit, or it is one word wider than the limit. *)
Definition row_ok (lim : Z) (row : list gostring) : Prop :=
  len (unwords row) <= lim \/ exists w, row = [w] /\ lim < len w.

(** A word: not empty, no whitespace. *)
Definition is_word (w : gostring) : Prop :=
  w <> [] /\ Forall (fun c => isspace c = false) w.

(** All the tabs of the text are at its start, and there is one at least. *)
Definition tabs_lead (s : gostring) : Prop :=
  exists (n : nat) (rest : gostring),
    (0 < n)%nat /\ s = replicate n tab ++ rest /\ tab ∉ rest.

(** The line with the mark of a pending continuation removed. *)
Definition complete (l : line) : line :=
  {| text := text l; indent := indent l; indented := indented l;
     incomplete := false; blank := blank l; tabular := tabular l;
     quoted := quoted l |}.

(** What a run of tabular lines writes to the column writer. *)
Definition written (blk : list line) : gostring :=
  List.concat (map (fun l => text l ++ [nl]) blk).

Definition ends_plain (ls : list line) : Prop :=
  match last ls with Some l => tabular l = false | None => True end.

Definition starts_plain (ls : list line) : Prop :=
  match head ls with Some l => tabular l = false | None => True end.

(** The number of tab bytes, and the offset of the last of them ([last] when
    there is none), the text starting at offset [i]. *)
Fixpoint tab_count (s : gostring) : Z :=
  match s with
  | [] => 0
  | c :: s' => (if bool_decide (c = tab) then 1 else 0) + tab_count s'
  end.

Fixpoint last_tab (i last : Z) (s : gostring) : Z :=
  match s with
  | [] => last
  | c :: s' => last_tab (i + 1) (if bool_decide (c = tab) then i else last) s'
  end.

(** The lines in front of the one [prevLine] points to. *)
Definition shift (pre : list line) (st : rstate) : rstate :=
  RState (pre ++ lines st) ((fun p => length pre + p)%nat <$> prevLine st).

(** The state with [o] in front of what the buffer holds. *)
Definition with_front (o : gostring) (st : fstate) : fstate :=
  FState (tabw st) (o ++ buf st).

(** ** Notions for further properties of the code *)

(** A tab stands in the leading white space of the runes. *)
Definition tab_in_indent (irs : list (Z * Z)) : Prop :=
  exists irs1 i irs2,
    irs = irs1 ++ (i, 9) :: irs2
    /\ Forall (fun ir => IsSpace ir.2 = true) irs1.

(** The text starts at the left margin: it is empty, or its first rune is
    no white space. *)
Definition flush_left (s : gostring) : Prop :=
  match range s with
  | [] => True
  | ir :: _ => IsSpace ir.2 = false
  end.

Definition is_ascii (s : gostring) : Prop :=
  Forall (fun c => byteZ c < 0x80) s.

(** The leading white space of an ASCII text. *)
Fixpoint indentation (s : gostring) : gostring :=
  match s with
  | [] => []
  | c :: s' => if isspace c then c :: indentation s' else []
  end.

(** The column reached from column [col] by the indentation [pre]: a tab
    leads to the next multiple of the tab stop, any other byte to the next
    column. *)
Fixpoint indent_columns (ts col : Z) (pre : gostring) : Z :=
  match pre with
  | [] => col
  | c :: pre' =>
    indent_columns ts
      (if bool_decide (c = tab) then ts * (col / ts + 1) else col + 1) pre'
  end.

(** The raw lines classified one by one. *)
Definition classify (ts : Z) (raws : list gostring) : option (list line) :=
  mapM (readline ts) raws.

(** Every line of [rest] is merged into the line before it: it is not
    blank, and the line before it is incomplete or short lines are joined. *)
Fixpoint chain (j : bool) (prev : line) (rest : list line) : bool :=
  match rest with
  | [] => true
  | curr :: rest' =>
    negb (blank curr) && (incomplete prev || j) && chain j curr rest'
  end.

(** The lines the formatter panics on. *)
Definition bad_line (f : Flag.flags) (l : line) : Prop :=
  tabular l = false /\ blank l = false
  /\ ((quoted l = true /\ ~ 0 <= Flag.tabstop f <= 256)
      \/ (quoted l = false /\ indented l = true /\ ~ 0 <= indent l <= 256)).

(** What the loop keeps, [seen] being the lines classified so far. *)
Definition join_inv (st : rstate) (seen : list line) : Prop :=
  state_ok st
  /\ Join (text <$> lines st) [sp] = Join (text <$> seen) [sp]
  /\ (lines st = [] <-> seen = [])
  /\ (length (lines st) <= length seen)%nat
  /\ Forall (fun l => blank l = true -> l ∈ seen) (lines st).

(** ** Examples *)

Example readline_plain :
  readline 4 (lit "hello")
  = Some (Line (lit "hello") 0 false false false false false).
Proof. reflexivity. Qed.

Example readline_tabs :
  readline 4 (lit "	a	b\")
  = Some (Line (lit "a	b") 4 true true false true false).
Proof. vm_compute. reflexivity. Qed.

(** The indentation is counted in runes and stripped in bytes: behind a
    no-break space (two bytes) the text keeps the second byte of it. *)
Example readline_nbsp :
  readline 4 (ascii_of_nat 194 :: ascii_of_nat 160 :: lit "x")
  = Some (Line (ascii_of_nat 160 :: lit "x") 1 true false false false false).
Proof. vm_compute. reflexivity. Qed.

Example ted_quote :
  ted {| Flag.length := 40; Flag.tabstop := 4; Flag.join := false |}
      [lit "	This is a quote, a rather long quote, that spans many lines"]
  = Some (lit "    This is a quote, a rather long
    quote, that spans many lines
").
Proof. vm_compute. reflexivity. Qed.
(** * The column writer at the start *)

Lemma NewWriter_ok ts : 0 <= ts -> NewWriter ts ts 1 = Some fstate0.
Proof.
  intros H. unfold NewWriter. destruct (Z.ltb_spec ts 0); [lia|done].
Qed.

Lemma NewWriter_negative ts : ts < 0 -> NewWriter ts ts 1 = None.
Proof.
  intros H. unfold NewWriter. destruct (Z.ltb_spec ts 0); [done|lia].
Qed.

(** With a tab stop that is not negative the formatter is its loop and the
    final flush. *)
Lemma format_unfold f ls :
  0 <= Flag.tabstop f ->
  format f ls = (st ← format_loop f ls fstate0; Some (buf (Flush st))).
Proof. intros H. unfold format. by rewrite NewWriter_ok. Qed.

(** With a negative tab stop the formatter panics before the first line. *)
Lemma format_negative f ls : Flag.tabstop f < 0 -> format f ls = None.
Proof. intros H. unfold format. by rewrite NewWriter_negative. Qed.

Lemma format_Some_tabstop f ls o : format f ls = Some o -> 0 <= Flag.tabstop f.
Proof.
  intros H. destruct (Z.le_gt_cases 0 (Flag.tabstop f)) as [|Hneg]; [done|].
  rewrite format_negative in H by lia. done.
Qed.

(** * Classification *)

Section Classify.
Variable ts : Z.

Lemma scan_step_total st ir : ts <> 0 -> is_Some (scan_step ts st ir).
Proof.
  intros Hts. destruct ir as [i r]. unfold scan_step, gorem.
  destruct (r =? 9); [destruct (s_inIndent st)|]; simpl.
  - destruct (Z.eqb_spec ts 0); [done|]. simpl. eauto.
  - eauto.
  - destruct (IsSpace r); [destruct (s_inIndent st)|]; eauto.
Qed.

Lemma scan_step_chars st ir st' :
  scan_step ts st ir = Some st' ->
  s_indentChars st <= s_indentChars st' <= s_indentChars st + 1.
Proof.
  destruct ir as [i r]. unfold scan_step.
  destruct (r =? 9); [destruct (s_inIndent st)|].
  - destruct (gorem _ _); simpl; intros [= <-]; simpl; lia.
  - intros [= <-]; simpl; lia.
  - destruct (IsSpace r); [destruct (s_inIndent st)|];
      intros [= <-]; simpl; lia.
Qed.

Lemma scan_loop_total irs : forall st, ts <> 0 -> is_Some (scan_loop ts st irs).
Proof.
  induction irs as [|ir irs IH]; intros st Hts; simpl; [eauto|].
  destruct (scan_step_total st ir Hts) as [st' ->]. simpl. auto.
Qed.

Lemma scan_loop_chars irs : forall st st',
  scan_loop ts st irs = Some st' ->
  s_indentChars st <= s_indentChars st' <= s_indentChars st + Z.of_nat (length irs).
Proof.
  induction irs as [|ir irs IH]; intros st st'; simpl.
  - intros [= <-]. lia.
  - destruct (scan_step ts st ir) as [st1|] eqn:E; simpl; [|done].
    intros H. apply IH in H. apply scan_step_chars in E. lia.
Qed.
End Classify.

#[local] Arguments decoderune : simpl never.

Lemma runes_from_length s : forall i k, (length (runes_from i k s) <= length s)%nat.
Proof.
  induction s as [|c s IH]; intros i k; simpl; [lia|].
  destruct k as [|k].
  - destruct (decoderune (c :: s)) as [r size]. simpl. specialize (IH (i + 1) (size - 1)%nat). lia.
  - specialize (IH (i + 1) k). lia.
Qed.

Lemma slice_total s lo hi :
  0 <= lo <= hi -> hi <= len s -> is_Some (slice s lo hi).
Proof.
  intros H1 H2. unfold slice.
  destruct (Z.leb_spec 0 lo), (Z.leb_spec lo hi), (Z.leb_spec hi (len s)); simpl; eauto; lia.
Qed.

Lemma slice_to_end s lo body :
  slice s lo (len s) = Some body -> body = drop (Z.to_nat lo) s /\ 0 <= lo <= len s.
Proof.
  unfold slice.
  destruct (Z.leb_spec 0 lo), (Z.leb_spec lo (len s)), (Z.leb_spec (len s) (len s));
    simpl; try done.
  intros [= <-]. split; [|lia].
  apply take_ge. rewrite length_drop. unfold len. lia.
Qed.

(** The classifier returns a line for every raw line, whatever the bytes,
    when the tab stop is not zero. *)
Lemma readline_total ts raw : ts <> 0 -> is_Some (readline ts raw).
Proof.
  intros Hts. unfold readline. destruct (strip raw) as [txt incompl].
  destruct (scan_loop_total ts (range txt) scan0 Hts) as [st Hst].
  rewrite Hst. simpl.
  pose proof (scan_loop_chars _ _ _ _ Hst) as Hc. simpl in Hc.
  pose proof (runes_from_length txt 0 0%nat) as Hr. fold (range txt) in Hr.
  destruct (slice_total txt (s_indentChars st) (len txt)) as [body ->];
    [unfold len; lia|unfold len; lia|].
  simpl. eauto.
Qed.

Lemma readline_inv ts raw l : readline ts raw = Some l -> line_inv l.
Proof.
  unfold readline. destruct (strip raw) as [txt incompl].
  destruct (scan_loop _ _ _) as [st|]; simpl; [|done].
  destruct (slice _ _ _); simpl; [|done].
  intros [= <-]. unfold line_inv. simpl.
  destruct (s_inIndent st), (0 <? s_tabCount st), (s_lastTab st + 1 =? s_tabCount st);
    simpl; auto.
Qed.

Lemma concat_inv l r : line_inv l -> line_inv r -> line_inv (concat l r).
Proof.
  unfold line_inv.
  destruct l as [? ? ? ? bl tl ql], r as [? ? ? ? br tr qr]; simpl.
  intros [H1 H2] [H3 H4].
  destruct bl, br, tl, tr, ql, qr; simpl in *; intuition congruence.
Qed.

Lemma strip_incomplete raw :
  HasSuffix raw [backslash] = true ->
  strip raw = (take (length raw - 1) raw, true)
  /\ raw = take (length raw - 1) raw ++ [backslash].
Proof.
  intros H. unfold strip. rewrite H. split; [done|].
  unfold HasSuffix in H. apply bool_decide_eq_true in H. simpl in H.
  rewrite <- H at 1. symmetry. apply take_drop.
Qed.

(** * Joining *)

Lemma readlines_step_ok j st curr :
  state_ok st ->
  exists st', readlines_step j st curr = Some st' /\ state_ok st'
              /\ is_Some (prevLine st').
Proof.
  unfold state_ok, readlines_step. destruct st as [ls [p|]]; simpl.
  - intros Hp.
    destruct (lookup_lt_is_Some_2 ls p) as [prev Hprev]; [lia|].
    rewrite Hprev. simpl.
    destruct (negb (blank curr) && (incomplete prev || j)).
    + eexists. split; [done|]. simpl. rewrite length_insert. eauto.
    + eexists. split; [done|]. simpl. rewrite length_app. simpl. split; [lia|eauto].
  - intros ->. eexists. split; [done|]. simpl. eauto.
Qed.

Lemma readlines_loop_app f raws1 : forall st raws2,
  readlines_loop f st (raws1 ++ raws2)
  = st' ← readlines_loop f st raws1; readlines_loop f st' raws2.
Proof.
  induction raws1 as [|raw raws1 IH]; intros st raws2; simpl; [done|].
  destruct (readline _ raw) as [curr|]; simpl; [|done].
  destruct (readlines_step _ st curr) as [st1|]; simpl; [|done].
  apply IH.
Qed.

Lemma readlines_loop_ok f raws : forall st,
  Flag.tabstop f <> 0 -> state_ok st ->
  exists st', readlines_loop f st raws = Some st' /\ state_ok st'.
Proof.
  induction raws as [|raw raws IH]; intros st Hts Hok; simpl; [eauto|].
  destruct (readline_total (Flag.tabstop f) raw Hts) as [curr ->]. simpl.
  destruct (readlines_step_ok (Flag.join f) st curr Hok) as (st1 & -> & Hok1 & _).
  simpl. auto.
Qed.

Lemma readlines_loop_state_ok f raws : forall st st',
  state_ok st -> readlines_loop f st raws = Some st' -> state_ok st'.
Proof.
  induction raws as [|raw raws IH]; intros st st' Hok; simpl.
  - by intros [= <-].
  - destruct (readline _ raw) as [curr|]; simpl; [|done].
    destruct (readlines_step_ok (Flag.join f) st curr Hok) as (st1 & -> & Hok1 & _).
    simpl. eauto.
Qed.

(** Every raw input is read into logical lines when the tab stop is not
    zero. *)
Lemma readlines_total f raws :
  Flag.tabstop f <> 0 -> is_Some (readlines f raws).
Proof.
  intros Hts. unfold readlines.
  destruct (readlines_loop_ok f raws rstate0 Hts) as (st & -> & _); [done|].
  simpl. eauto.
Qed.

Lemma readlines_step_Logical ts j st curr st' :
  Forall (Logical ts) (lines st) -> Logical ts curr ->
  readlines_step j st curr = Some st' -> Forall (Logical ts) (lines st').
Proof.
  intros Hls Hcurr. unfold readlines_step.
  assert (Forall (Logical ts) (lines (append_line st curr))) as Happ.
  { simpl. apply Forall_app. split; [done|]. by constructor. }
  destruct (prevLine st) as [p|]; [|by intros [= <-]].
  destruct (lines st !! p) as [prev|] eqn:Hprev; simpl; [|done].
  destruct (negb (blank curr) && (incomplete prev || j)); intros [= <-]; [|done].
  simpl. apply Forall_insert; [done|].
  apply Logical_merge; [|done].
  rewrite Forall_lookup in Hls. by eapply Hls.
Qed.

Lemma readlines_loop_Logical f raws : forall st st',
  Forall (Logical (Flag.tabstop f)) (lines st) ->
  readlines_loop f st raws = Some st' ->
  Forall (Logical (Flag.tabstop f)) (lines st').
Proof.
  induction raws as [|raw raws IH]; intros st st' Hls; simpl.
  - by intros [= <-].
  - destruct (readline _ raw) as [curr|] eqn:Hcurr; simpl; [|done].
    destruct (readlines_step _ st curr) as [st1|] eqn:Hst1; simpl; [|done].
    apply IH. eapply readlines_step_Logical; eauto. by econstructor.
Qed.

(** The lines [readlines] returns are logical lines. *)
Lemma readlines_Logical f raws ls :
  readlines f raws = Some ls -> Forall (Logical (Flag.tabstop f)) ls.
Proof.
  unfold readlines.
  destruct (readlines_loop f rstate0 raws) as [st|] eqn:Hst; simpl; [|done].
  intros [= <-]. eapply readlines_loop_Logical; [|done]. constructor.
Qed.

Lemma Logical_inv ts l : Logical ts l -> line_inv l.
Proof.
  induction 1 as [raw l H|l r _ IHl _ IHr].
  - by eapply readline_inv.
  - by apply concat_inv.
Qed.

(** The lines in front of the one [prevLine] points to are out of reach:
    the loop runs the same with more lines in front. *)
Lemma readlines_step_shift j pre st curr :
  is_Some (prevLine st) ->
  readlines_step j (shift pre st) curr = shift pre <$> readlines_step j st curr.
Proof.
  intros [p Hp]. unfold readlines_step, shift. rewrite Hp. simpl.
  rewrite lookup_app_r by lia.
  replace (length pre + p - length pre)%nat with p by lia.
  destruct (lines st !! p) as [prev|] eqn:Hprev; simpl; [|done].
  destruct (negb (blank curr) && (incomplete prev || j)); simpl.
  - f_equal. unfold shift. simpl. f_equal.
    rewrite insert_app_r_alt by lia. do 2 f_equal. lia.
  - f_equal. unfold append_line, shift. simpl.
    rewrite length_app, app_assoc. done.
Qed.

Lemma readlines_loop_shift f pre raws : forall st,
  state_ok st -> is_Some (prevLine st) ->
  readlines_loop f (shift pre st) raws = shift pre <$> readlines_loop f st raws.
Proof.
  induction raws as [|raw raws IH]; intros st Hok Hp; simpl; [done|].
  destruct (readline _ raw) as [curr|]; simpl; [|done].
  rewrite readlines_step_shift by done.
  destruct (readlines_step_ok (Flag.join f) st curr Hok) as (st1 & -> & Hok1 & Hp1).
  simpl. by apply IH.
Qed.

Lemma format_line_complete f l st :
  format_line f (complete l) st = format_line f l st.
Proof. reflexivity. Qed.

Lemma format_loop_complete f ls : forall st,
  format_loop f (complete <$> ls) st = format_loop f ls st.
Proof.
  induction ls as [|l ls IH]; intros st; simpl; [done|].
  rewrite format_line_complete.
  destruct (format_line f l st); simpl; auto.
Qed.

(** C9: every logical line, classified from a raw line or merged any number
    of times, never has [tabular] and [quoted] both set, and when it is
    [blank] it is neither [tabular] nor [quoted]. *)
Theorem logical_line_invariant (ts : Z) (l : line) :
  Logical ts l ->
  (tabular l && quoted l = false)
  /\ (blank l = true -> tabular l = false /\ quoted l = false).
Proof. apply Logical_inv. Qed.

Lemma logical_line_invariant_witness :
  Logical 4 (concat (Line (lit "a") 0 false true false false false)
                    (Line (lit "b") 4 true false false false true))
  /\ tabular (concat (Line (lit "a") 0 false true false false false)
                     (Line (lit "b") 4 true false false false true))
     && quoted (concat (Line (lit "a") 0 false true false false false)
                       (Line (lit "b") 4 true false false false true)) = false.
Proof.
  assert (Logical 4 (concat (Line (lit "a") 0 false true false false false)
                            (Line (lit "b") 4 true false false false true))) as H.
  { apply Logical_merge.
    - apply (Logical_fresh 4 (lit "a\")). vm_compute. reflexivity.
    - apply (Logical_fresh 4 (lit "	b")). vm_compute. reflexivity. }
  split; [exact H|].
  exact (proj1 (logical_line_invariant 4 _ H)).
Defined.

(** C6: a newly classified line is merged into the previous logical line
    when there is one, the new line is not blank, and the previous line is
    incomplete or short lines are joined: the previous line, the last of the
    slice, gets the text with a space and the new text appended, the
    [incomplete] flag of the new line, the conjunction of the [blank] flags,
    [tabular] when either was tabular or the new line quoted, [quoted] when
    it was quoted and is not tabular now; the lines before it and the number
    of lines stay as they are and the new line is not appended.  Otherwise
    the new line is appended behind the lines read so far and becomes the
    previous line.  The lines ["a b\"] and ["c d"] give the one line
    ["a b c d"], not incomplete. *)
Theorem readlines_step_merge_or_append (j : bool) (st : rstate) (curr : line) :
  state_ok st ->
  (exists st',
     readlines_step j st curr = Some st' /\ state_ok st'
     /\ match prev_of st with
        | Some prev =>
          if negb (blank curr) && (incomplete prev || j)
          then exists p m ls0,
              prevLine st = Some p
              /\ st' = RState (<[p := m]> (lines st)) (Some p)
              /\ lines st = ls0 ++ [prev]
              /\ lines st' = ls0 ++ [m]
              /\ prevLine st' = prevLine st
              /\ prev_of st' = Some m
              /\ length (lines st') = length (lines st)
              /\ text m = text prev ++ [sp] ++ text curr
              /\ incomplete m = incomplete curr
              /\ blank m = blank prev && blank curr
              /\ tabular m = tabular prev || tabular curr || quoted curr
              /\ quoted m = quoted prev && negb (tabular m)
              /\ indent m = indent prev
              /\ indented m = indented prev
          else lines st' = lines st ++ [curr]
               /\ prevLine st' = Some (length (lines st))
               /\ prev_of st' = Some curr
        | None =>
          prevLine st = None
          /\ lines st = []
          /\ lines st' = [curr]
          /\ prevLine st' = Some 0%nat
          /\ prev_of st' = Some curr
        end)
  /\ readlines Flag.default [lit "a b\"; lit "c d"]
     = Some [Line (lit "a b c d") 0 false false false false false].
Proof.
  intros Hok. split; [|vm_compute; reflexivity].
  destruct (readlines_step_ok j st curr Hok) as (st' & Hst' & Hok' & _).
  exists st'. split; [done|]. split; [done|].
  assert (prev_of (RState (lines st ++ [curr]) (Some (length (lines st))))
          = Some curr) as Happ.
  { unfold prev_of. simpl. apply list_lookup_middle. done. }
  revert Hst'. unfold readlines_step, append_line, prev_of, state_ok in *.
  destruct (prevLine st) as [p|] eqn:Hp; simpl.
  - destruct (lookup_lt_is_Some_2 (lines st) p) as [prev Hprev]; [lia|].
    rewrite Hprev. simpl.
    destruct (negb (blank curr) && (incomplete prev || j)); intros [= <-].
    + destruct (lines st) as [|l0 ls0 _] using rev_ind; [simpl in *; lia|].
      rewrite length_app in Hok. simpl in Hok.
      assert (p = length ls0) as -> by lia.
      rewrite list_lookup_middle in Hprev by done. injection Hprev as ->.
      exists (length ls0), (concat prev curr), ls0. simpl.
      rewrite insert_app_r_alt by lia. rewrite Nat.sub_diag. simpl.
      rewrite list_lookup_middle by done. rewrite !length_app. simpl.
      repeat split; done.
    + simpl. done.
  - intros [= <-]. simpl. rewrite Hok. simpl. done.
Qed.

Lemma readlines_step_merge_or_append_witness :
  state_ok (RState [Line (lit "z") 0 false false false false false;
                    Line (lit "a b") 0 false true false false false]
                   (Some 1%nat))
  /\ exists st',
      readlines_step false
        (RState [Line (lit "z") 0 false false false false false;
                 Line (lit "a b") 0 false true false false false]
                (Some 1%nat))
        (Line (lit "c d") 0 false false false false false) = Some st'
      /\ lines st' = [Line (lit "z") 0 false false false false false;
                      Line (lit "a b c d") 0 false false false false false].
Proof.
  split; [reflexivity|].
  destruct (readlines_step_merge_or_append false
              (RState [Line (lit "z") 0 false false false false false;
                       Line (lit "a b") 0 false true false false false]
                      (Some 1%nat))
              (Line (lit "c d") 0 false false false false false))
    as [(st' & H1 & _ & _) _]; [reflexivity|].
  exists st'. split; [exact H1|].
  vm_compute in H1. injection H1 as <-. reflexivity.
Defined.

(** C4, as the code has it: a blank line is never merged into the logical
    line before it, so that nothing read after it reaches the lines read
    before it; and with short lines not joined, a blank line that does not
    end in a backslash stays a line of its own. *)
Theorem blank_line_ends_joining (f : Flag.flags)
    (raws1 : list gostring) (b : gostring) (raws2 : list gostring) (lb : line) :
  readline (Flag.tabstop f) b = Some lb ->
  blank lb = true ->
  readlines f (raws1 ++ b :: raws2)
  = (ls1 ← readlines f raws1; ls2 ← readlines f (b :: raws2); Some (ls1 ++ ls2))
  /\ (incomplete lb = false -> Flag.join f = false ->
      readlines f (b :: raws2) = (ls ← readlines f raws2; Some (lb :: ls))).
Proof.
  intros Hb Hblank.
  assert (forall st, state_ok st ->
            readlines_loop f st (b :: raws2)
            = shift (lines st) <$> readlines_loop f (RState [lb] (Some 0%nat)) raws2)
    as Hfrom.
  { intros st Hok. simpl. rewrite Hb. simpl.
    assert (readlines_step (Flag.join f) st lb = Some (append_line st lb)) as ->.
    { unfold readlines_step. destruct (prevLine st) as [p|] eqn:Hp; [|done].
      unfold state_ok in Hok. rewrite Hp in Hok.
      destruct (lookup_lt_is_Some_2 (lines st) p) as [prev ->]; [lia|].
      simpl. by rewrite Hblank. }
    simpl.
    replace (append_line st lb) with (shift (lines st) (RState [lb] (Some 0%nat))).
    - apply readlines_loop_shift; [done|]. simpl. eauto.
    - unfold shift, append_line. simpl. do 2 f_equal. lia. }
  split.
  - unfold readlines. rewrite readlines_loop_app, (Hfrom rstate0) by done.
    destruct (readlines_loop f rstate0 raws1) as [st1|] eqn:Hst1; [|done].
    assert (state_ok st1) as Hok1 by (by eapply readlines_loop_state_ok; [|done]).
    cbn [mbind option_bind]. rewrite (Hfrom st1 Hok1).
    destruct (readlines_loop f (RState [lb] (Some 0%nat)) raws2) as [st2|]; done.
  - intros Hinc Hj. unfold readlines. rewrite (Hfrom rstate0) by done. simpl.
    destruct raws2 as [|r raws2]; simpl; [done|].
    destruct (readline (Flag.tabstop f) r) as [curr|]; simpl; [|done].
    unfold readlines_step at 1. cbn [prevLine lines]. simpl. rewrite Hinc, Hj, andb_false_r. cbn [mbind option_bind].
    change (append_line (RState [lb] (Some 0%nat)) curr)
      with (shift [lb] (RState [curr] (Some 0%nat))).
    rewrite readlines_loop_shift; [|done|simpl; eauto].
    change (append_line rstate0 curr) with (RState [curr] (Some 0%nat)).
    destruct (readlines_loop f (RState [curr] (Some 0%nat)) raws2) as [st2|]; simpl; done.
Qed.

Lemma blank_line_ends_joining_witness :
  readline 4 (lit "  ") = Some (Line [] 2 true false true false false)
  /\ readlines Flag.default ([lit "a\"] ++ lit "  " :: [lit "b"])
     = (ls1 ← readlines Flag.default [lit "a\"];
        ls2 ← readlines Flag.default (lit "  " :: [lit "b"]); Some (ls1 ++ ls2)).
Proof.
  split; [vm_compute; reflexivity|].
  refine (proj1 (blank_line_ends_joining Flag.default [lit "a\"] (lit "  ")
                   [lit "b"] (Line [] 2 true false true false false) _ _)).
  - vm_compute. reflexivity.
  - reflexivity.
Defined.

(** C4 fails as stated: under the default flags the raw line that is only a
    backslash is a blank logical line, and the line after it is merged into
    it; with short lines joined the same happens to the empty line. *)
Lemma nonblank_merged_into_blank :
  readline 4 (lit "\") = Some (Line [] 0 false true true false false)
  /\ readlines Flag.default [lit "\"; lit "x"]
     = Some [Line (lit " x") 0 false false false false false]
  /\ readline 4 (lit "") = Some (Line [] 0 false false true false false)
  /\ readlines {| Flag.length := 120; Flag.tabstop := 4; Flag.join := true |}
       [lit ""; lit "x"]
     = Some [Line (lit " x") 0 false false false false false].
Proof. repeat split; vm_compute; reflexivity. Qed.

(** C10, as the code has it: the last raw line ends in a backslash.  Its
    line has the backslash stripped and is incomplete.  When there is a line
    read before it, it is not blank, and that line is incomplete or short
    lines are joined, it is merged into that line; otherwise it is appended
    to the lines read before.  Either way the last logical line is
    incomplete, and the lines are formatted as if no continuation were
    pending. *)
Theorem trailing_backslash_at_end (f : Flag.flags)
    (raws : list gostring) (r : gostring) :
  Flag.tabstop f <> 0 ->
  HasSuffix r [backslash] = true ->
  exists curr ls0 ls l,
    readline (Flag.tabstop f) r = Some curr
    /\ incomplete curr = true
    /\ text curr `suffix_of` take (length r - 1) r
    /\ r = take (length r - 1) r ++ [backslash]
    /\ readlines f raws = Some ls0
    /\ readlines f (raws ++ [r]) = Some ls
    /\ match last ls0 with
       | Some prev =>
         if negb (blank curr) && (incomplete prev || Flag.join f)
         then exists ls1,
             ls0 = ls1 ++ [prev] /\ ls = ls1 ++ [concat prev curr]
         else ls = ls0 ++ [curr]
       | None => ls = ls0 ++ [curr]
       end
    /\ last ls = Some l
    /\ incomplete l = true
    /\ format f ls = format f (complete <$> ls).
Proof.
  intros Hts Hsuf.
  destruct (strip_incomplete r Hsuf) as [Hstrip Hr].
  destruct (readline_total (Flag.tabstop f) r Hts) as [curr Hcurr].
  assert (incomplete curr = true /\ text curr `suffix_of` take (length r - 1) r)
    as [Hinc Htext].
  { revert Hcurr. unfold readline. rewrite Hstrip.
    destruct (scan_loop _ _ _) as [st|]; simpl; [|done].
    destruct (slice _ _ _) as [body|] eqn:Hbody; simpl; [|done].
    intros [= <-]. simpl. split; [done|].
    apply slice_to_end in Hbody as [-> _]. apply suffix_drop. }
  destruct (readlines_loop_ok f raws rstate0 Hts) as (st0 & Hst0 & Hok0); [done|].
  destruct (readlines_step_ok (Flag.join f) st0 curr Hok0) as (st1 & Hst1 & Hok1 & _).
  assert (readlines f (raws ++ [r]) = Some (lines st1)) as Hls.
  { unfold readlines. rewrite readlines_loop_app, Hst0. simpl.
    rewrite Hcurr. simpl. rewrite Hst1. done. }
  assert (match last (lines st0) with
          | Some prev =>
            if negb (blank curr) && (incomplete prev || Flag.join f)
            then exists ls1,
                lines st0 = ls1 ++ [prev]
                /\ lines st1 = ls1 ++ [concat prev curr]
            else lines st1 = lines st0 ++ [curr]
          | None => lines st1 = lines st0 ++ [curr]
          end) as Hcase.
  { clear Hst0 Hls Hok1. revert Hst1.
    unfold readlines_step, append_line, state_ok in *.
    destruct st0 as [ls00 [p|]]; simpl in *.
    - destruct ls00 as [|l0 ls0' _] using rev_ind; [simpl in *; lia|].
      rewrite length_app in Hok0. simpl in Hok0.
      assert (p = length ls0') as -> by lia.
      rewrite list_lookup_middle by done. rewrite last_snoc. simpl.
      destruct (negb (blank curr) && (incomplete l0 || Flag.join f));
        intros [= <-]; [|done].
      exists ls0'. split; [done|]. simpl.
      rewrite insert_app_r_alt by lia. by rewrite Nat.sub_diag.
    - rewrite Hok0. by intros [= <-]. }
  assert (exists l, last (lines st1) = Some l /\ incomplete l = true) as (l & Hl & Hli).
  { destruct (last (lines st0)) as [prev|].
    - destruct (negb (blank curr) && (incomplete prev || Flag.join f)).
      + destruct Hcase as (ls1 & _ & ->). rewrite last_snoc. eauto.
      + rewrite Hcase, last_snoc. eauto.
    - rewrite Hcase, last_snoc. eauto. }
  exists curr, (lines st0), (lines st1), l.
  split; [done|]. split; [done|]. split; [done|]. split; [done|].
  split; [unfold readlines; by rewrite Hst0|].
  split; [done|]. split; [done|]. split; [done|]. split; [done|].
  unfold format. destruct (NewWriter _ _ _) as [st2|]; simpl; [|done].
  by rewrite format_loop_complete.
Qed.

Lemma trailing_backslash_at_end_witness :
  Flag.tabstop Flag.default <> 0
  /\ HasSuffix (lit "b\") [backslash] = true
  /\ exists ls l,
      readlines Flag.default ([lit "a"] ++ [lit "b\"]) = Some ls
      /\ last ls = Some l /\ incomplete l = true.
Proof.
  split; [discriminate|]. split; [reflexivity|].
  destruct (trailing_backslash_at_end Flag.default [lit "a"] (lit "b\"))
    as (curr & ls0 & ls & l & _ & _ & _ & _ & _ & H & _ & Hl & Hi & _);
    [discriminate|reflexivity|].
  exists ls, l. split; [exact H|]. split; [exact Hl|exact Hi].
Defined.

(** C10 fails as stated: after a line that is itself incomplete, the last
    raw line is merged, not appended: one logical line comes out, and it is
    not the line of the last raw line. *)
Lemma trailing_backslash_not_appended :
  readline 4 (lit "b\") = Some (Line (lit "b") 0 false true false false false)
  /\ readlines Flag.default [lit "a\"; lit "b\"]
     = Some [Line (lit "a b") 0 false true false false false].
Proof. split; vm_compute; reflexivity. Qed.

(** * Tabs and the quoted flag *)

Lemma byteZ_tab c : byteZ c = 9 <-> c = tab.
Proof.
  split; [|intros ->; reflexivity].
  intros H. unfold byteZ in H.
  assert (N_of_ascii c = 9%N) as HN by lia.
  rewrite <- (ascii_N_embedding c), HN. reflexivity.
Qed.

Lemma contb_not_tab c : contb (byteZ c) = true -> c <> tab.
Proof.
  unfold contb. intros H ->. vm_compute in H. discriminate.
Qed.

(** The result of a branch of [decoderune] that gives [RuneError]. *)
Ltac rune_error :=
  intros [= <- <-]; repeat split; try done; constructor.

(** The result of a branch that gives a rune of several bytes. *)
Ltac rune_wide :=
  intros [= <- <-]; (split; [split; [lia|done]|]); (split; [lia|]); simpl;
  repeat constructor; by apply contb_not_tab.

(** A tab byte is a rune of its own: the rune decoded at a byte is the tab
    exactly when the byte is, and the bytes of a longer rune are no tabs. *)
Lemma decoderune_tab c s r size :
  decoderune (c :: s) = (r, size) ->
  (r = 9 <-> c = tab) /\ (1 <= size)%nat
  /\ Forall (fun c' => c' <> tab) (take (size - 1) s).
Proof.
  unfold decoderune.
  destruct (Z.ltb_spec (byteZ c) 0x80) as [H0|H0].
  { intros [= <- <-]. split; [apply byteZ_tab|]. split; [lia|constructor]. }
  assert (c <> tab) as Hc by (intros ->; change (byteZ tab) with 9 in H0; lia).
  destruct ((0xC0 <=? byteZ c) && (byteZ c <? 0xE0)).
  { destruct s as [|c1 s]; [rune_error|].
    destruct (contb (byteZ c1)) eqn:H1; simpl; [|rune_error].
    match goal with
    | |- context [0x7F <? ?x] => destruct (Z.ltb_spec 0x7F x)
    end; [rune_wide|rune_error]. }
  destruct ((0xE0 <=? byteZ c) && (byteZ c <? 0xF0)).
  { destruct s as [|c1 [|c2 s]]; try rune_error.
    destruct (contb (byteZ c1)) eqn:H1; simpl; [|rune_error].
    destruct (contb (byteZ c2)) eqn:H2; simpl; [|rune_error].
    match goal with
    | |- context [0x7FF <? ?x] => destruct (Z.ltb_spec 0x7FF x)
    end; simpl; [|rune_error].
    match goal with
    | |- context [negb ?x] => destruct x
    end; simpl; [rune_error|rune_wide]. }
  destruct ((0xF0 <=? byteZ c) && (byteZ c <? 0xF8)).
  { destruct s as [|c1 [|c2 [|c3 s]]]; try rune_error.
    destruct (contb (byteZ c1)) eqn:H1; simpl; [|rune_error].
    destruct (contb (byteZ c2)) eqn:H2; simpl; [|rune_error].
    destruct (contb (byteZ c3)) eqn:H3; simpl; [|rune_error].
    match goal with
    | |- context [0xFFFF <? ?x] => destruct (Z.ltb_spec 0xFFFF x)
    end; simpl; [|rune_error].
    match goal with
    | |- context [?x <=? 0x10FFFF] => destruct (x <=? 0x10FFFF)
    end; simpl; [rune_wide|rune_error]. }
  rune_error.
Qed.

Lemma scan_step_tabs ts st i r st' :
  scan_step ts st (i, r) = Some st' ->
  s_tabCount st' = s_tabCount st + (if r =? 9 then 1 else 0)
  /\ s_lastTab st' = (if r =? 9 then i else s_lastTab st).
Proof.
  unfold scan_step.
  destruct (r =? 9); [destruct (s_inIndent st)|].
  - destruct (gorem _ _); simpl; intros [= <-]; simpl; done.
  - intros [= <-]; simpl; done.
  - destruct (IsSpace r); [destruct (s_inIndent st)|];
      intros [= <-]; simpl; split; lia.
Qed.

#[local] Arguments scan_step : simpl never.

Lemma scan_loop_tabs ts s : forall i k st st',
  Forall (fun c => c <> tab) (take k s) ->
  scan_loop ts st (runes_from i k s) = Some st' ->
  s_tabCount st' = s_tabCount st + tab_count s
  /\ s_lastTab st' = last_tab i (s_lastTab st) s.
Proof.
  induction s as [|c s IH]; intros i k st st' Hk; simpl.
  - intros [= <-]. split; [lia|done].
  - destruct k as [|k].
    + destruct (decoderune (c :: s)) as [r size] eqn:Hd.
      apply decoderune_tab in Hd as (Hr & Hsize & Hskip).
      simpl. destruct (scan_step ts st (i, r)) as [st1|] eqn:H1; simpl; [|done].
      apply scan_step_tabs in H1 as [Hc Hl].
      intros H. apply IH in H as [-> ->]; [|done].
      rewrite Hc, Hl.
      destruct (Z.eqb_spec r 9) as [Hr9|Hr9].
      * apply Hr in Hr9 as ->. rewrite bool_decide_eq_true_2 by done. split; [lia|done].
      * rewrite bool_decide_eq_false_2 by tauto. split; [lia|done].
    + simpl in Hk. apply Forall_cons in Hk as [Hc Hk].
      rewrite bool_decide_eq_false_2 by done.
      intros H. apply IH in H as [-> ->]; [|done]. split; [lia|done].
Qed.

Lemma tab_count_nonneg s : 0 <= tab_count s.
Proof. induction s as [|c s IH]; simpl; [lia|]. destruct (bool_decide _); lia. Qed.

Lemma tab_count_zero s : tab_count s = 0 <-> tab ∉ s.
Proof.
  induction s as [|c s IH]; simpl.
  - split; [intros _; apply not_elem_of_nil|done].
  - pose proof (tab_count_nonneg s). rewrite not_elem_of_cons.
    destruct (bool_decide_reflect (c = tab)) as [->|Hc].
    + split; [lia|intros [? _]; done].
    + rewrite <- IH. split; [intros; split; [congruence|lia]|intros [_ ?]; lia].
Qed.

Lemma last_tab_none s : forall i last, tab_count s = 0 -> last_tab i last s = last.
Proof.
  induction s as [|c s IH]; intros i last; simpl; [done|].
  pose proof (tab_count_nonneg s).
  destruct (bool_decide _); [lia|]. intros. apply IH. lia.
Qed.

Lemma tabs_lead_cons_tab s :
  tabs_lead (tab :: s) <-> (tab_count s = 0 \/ tabs_lead s).
Proof.
  unfold tabs_lead. split.
  - intros (n & rest & Hn & Hs & Hrest).
    destruct n as [|[|n]]; [lia| |]; simpl in Hs.
    + left. injection Hs as ->. by apply tab_count_zero.
    + right. exists (S n), rest. injection Hs as ->. split; [lia|done].
  - intros [H|(n & rest & Hn & -> & Hrest)].
    + exists 1%nat, s. split; [lia|]. split; [done|]. by apply tab_count_zero.
    + exists (S n), rest. split; [lia|done].
Qed.

Lemma tabs_lead_cons_other c s : c <> tab -> ~ tabs_lead (c :: s).
Proof.
  intros Hc (n & rest & Hn & Hs & _).
  destruct n; [lia|]. simpl in Hs. congruence.
Qed.

Lemma last_tab_lead s : forall i last,
  0 < tab_count s ->
  i + tab_count s - 1 <= last_tab i last s
  /\ (last_tab i last s = i + tab_count s - 1 <-> tabs_lead s).
Proof.
  induction s as [|c s IH]; intros i last; simpl; [lia|].
  pose proof (tab_count_nonneg s) as Hn.
  destruct (bool_decide_reflect (c = tab)) as [->|Hc]; intros Hpos.
  - rewrite tabs_lead_cons_tab.
    destruct (decide (tab_count s = 0)) as [H0|H0].
    + rewrite last_tab_none by done. rewrite H0. split; [lia|]. split; [auto|lia].
    + destruct (IH (i + 1) i) as [IH1 IH2]; [lia|].
      split; [lia|]. rewrite <- IH2. split; [intros; right; lia|intros [?|?]; lia].
  - destruct (IH (i + 1) last) as [IH1 IH2]; [lia|].
    split; [lia|]. split; [lia|]. intros H. by apply tabs_lead_cons_other in H.
Qed.

Lemma tabs_lead_count s : tabs_lead s -> 0 < tab_count s.
Proof.
  intros (n & rest & Hn & -> & _). destruct n; [lia|].
  cbn [replicate app tab_count]. rewrite bool_decide_eq_true_2 by done.
  pose proof (tab_count_nonneg (replicate n tab ++ rest)). lia.
Qed.

(** C1, as the code has it: a line is quoted exactly when it is not blank
    and all its tabs, one at least, stand at the very start of the text (the
    offset of the last tab plus one is then the number of tabs). *)
Theorem quoted_iff_tabs_lead (ts : Z) (raw : gostring) (l : line) :
  readline ts raw = Some l ->
  (quoted l = true <-> blank l = false /\ tabs_lead (strip raw).1).
Proof.
  unfold readline. destruct (strip raw) as [txt incompl]. simpl.
  destruct (scan_loop ts scan0 (range txt)) as [st|] eqn:Hst; simpl; [|done].
  destruct (slice _ _ _); simpl; [|done].
  intros [= <-]. simpl.
  apply scan_loop_tabs in Hst as [Hc Hl]; [|constructor]. simpl in Hc, Hl.
  rewrite Z.add_0_l in Hc. rewrite Hc, Hl.
  destruct (s_inIndent st); simpl; [split; [intros [=]|intros [[=] _]]|].
  destruct (Z.ltb_spec 0 (tab_count txt)) as [Hpos|Hpos]; simpl.
  - destruct (last_tab_lead txt 0 0 Hpos) as [_ Hiff].
    destruct (Z.eqb_spec (last_tab 0 0 txt + 1) (tab_count txt)) as [He|He].
    + split; [intros _; split; [done|]; apply Hiff; lia|done].
    + split; [done|]. intros [_ H]. apply Hiff in H. lia.
  - split; [done|]. intros [_ H]. apply tabs_lead_count in H. lia.
Qed.

Lemma quoted_iff_tabs_lead_witness :
  readline 4 (lit "		quote") = Some (Line (lit "quote") 8 true false false false true)
  /\ tabs_lead (strip (lit "		quote")).1.
Proof.
  assert (readline 4 (lit "		quote")
          = Some (Line (lit "quote") 8 true false false false true)) as H
    by (vm_compute; reflexivity).
  split; [exact H|].
  exact (proj2 (proj1 (quoted_iff_tabs_lead 4 _ _ H) eq_refl)).
Defined.

(** C1 fails as stated: with a tab stop of four, the line of four spaces, a
    tab and text is not blank, its only tab is at offset four, in front of
    its five indentation bytes, and it is classified tabular, not quoted. *)
Lemma spaces_then_tab_not_quoted :
  exists st l,
    scan_loop 4 scan0
      (range (lit "    	nested quote text that is somewhat long indeed")) = Some st
    /\ readline 4 (lit "    	nested quote text that is somewhat long indeed") = Some l
    /\ blank l = false
    /\ s_tabCount st = 1
    /\ s_lastTab st = 4
    /\ s_indentChars st = 5
    /\ quoted l = false
    /\ tabular l = true.
Proof.
  eexists _, _. split; [vm_compute; reflexivity|].
  split; [vm_compute; reflexivity|]. repeat split.
Qed.

(** * Formatting *)

Lemma tabrender_nil : tabrender [] = [].
Proof. reflexivity. Qed.

(** C3, as the code has it: for a blank logical line the formatter flushes
    the column writer and writes no text, but it does write the newline that
    ends every line that is not tabular: with a tab stop that is not
    negative a blank line alone gives the one byte of an empty output line.
    With a negative tab stop the column writer panics when it is made, before
    any line is formatted. *)
Theorem blank_line_gives_newline (f : Flag.flags) (l : line) (st : fstate) :
  Logical (Flag.tabstop f) l ->
  blank l = true ->
  format_switch f l = Some []
  /\ format_line f l st
     = Some (FState [] (buf st ++ tabrender (tabw st) ++ [nl]))
  /\ (0 <= Flag.tabstop f -> format f [l] = Some [nl])
  /\ (Flag.tabstop f < 0 -> format f [l] = None).
Proof.
  intros Hl Hb. apply Logical_inv in Hl as [_ Hl].
  destruct (Hl Hb) as [Ht _].
  assert (format_switch f l = Some []) as Hsw
    by (unfold format_switch; by rewrite Hb).
  split; [done|]. split; [|split].
  - unfold format_line. rewrite Ht, Hsw. simpl. by rewrite <- app_assoc.
  - intros Hts. rewrite format_unfold by done.
    unfold format_loop, format_line. rewrite Ht, Hsw. reflexivity.
  - apply format_negative.
Qed.

Lemma blank_line_gives_newline_witness :
  Logical 4 (Line [] 2 true false true false false)
  /\ format Flag.default [Line [] 2 true false true false false] = Some [nl].
Proof.
  assert (Logical 4 (Line [] 2 true false true false false)) as H.
  { apply (Logical_fresh 4 (lit "  ")). vm_compute. reflexivity. }
  split; [exact H|].
  refine (proj1 (proj2 (proj2
            (blank_line_gives_newline Flag.default _ fstate0 H eq_refl))) _).
  simpl. lia.
Defined.

(** C3 fails as stated: the empty raw line is a blank logical line, and the
    output for it is one byte, the newline. *)
Lemma blank_line_output_not_empty :
  readlines Flag.default [lit ""] = Some [Line [] 0 false false true false false]
  /\ format Flag.default [Line [] 0 false false true false false] = Some [nl]
  /\ len [nl] = 1.
Proof. repeat split. Qed.

(** * Word wrap *)

Lemma Join_cons s ss sep :
  Join (s :: ss) sep = s ++ match ss with [] => [] | _ => sep ++ Join ss sep end.
Proof. destruct ss; simpl; [by rewrite app_nil_r|done]. Qed.

Lemma words_aux_nospace x : forall w s,
  Forall (fun c => isspace c = false) x ->
  words_aux w (x ++ s) = words_aux (w ++ x) s.
Proof.
  induction x as [|c x IH]; intros w s Hx; simpl.
  - by rewrite app_nil_r.
  - apply Forall_cons in Hx as [Hc Hx]. rewrite Hc, IH by done.
    by rewrite <- app_assoc.
Qed.

Lemma words_aux_space x c y : forall w,
  isspace c = true ->
  words_aux w (x ++ c :: y) = words_aux w x ++ words_aux [] y.
Proof.
  induction x as [|a x IH]; intros w Hc; simpl.
  - rewrite Hc. by destruct w.
  - destruct (isspace a); [|by apply IH].
    destruct w; simpl; rewrite IH by done; done.
Qed.

Lemma words_app_space x c y :
  isspace c = true -> words (x ++ c :: y) = words x ++ words y.
Proof. apply words_aux_space. Qed.

Lemma words_aux_is_word s : forall w,
  Forall (fun c => isspace c = false) w -> Forall is_word (words_aux w s).
Proof.
  induction s as [|c s IH]; intros w Hw; simpl.
  - destruct w; constructor; [|constructor]. split; done.
  - destruct (isspace c) eqn:Hc.
    + destruct w; [apply IH; constructor|].
      constructor; [split; done|apply IH; constructor].
    + apply IH. apply Forall_app. split; [done|]. by repeat constructor.
Qed.

Lemma words_is_word s : Forall is_word (words s).
Proof. apply words_aux_is_word. constructor. Qed.

Lemma words_word w : is_word w -> words w = [w].
Proof.
  intros [Hne Hw]. unfold words.
  rewrite <- (app_nil_r w) at 1. rewrite words_aux_nospace by done. simpl.
  by destruct w.
Qed.

Lemma words_Join ss c :
  isspace c = true ->
  words (Join ss [c]) = List.concat (map words ss).
Proof.
  intros Hc. induction ss as [|s ss IH]; [done|].
  rewrite Join_cons. destruct ss as [|t ss].
  - simpl. by rewrite !app_nil_r.
  - change ([c] ++ Join (t :: ss) [c]) with (c :: Join (t :: ss) [c]).
    rewrite words_app_space, IH by done. done.
Qed.

Lemma words_unwords row : Forall is_word row -> words (unwords row) = row.
Proof.
  intros Hrow. unfold unwords. rewrite words_Join by done.
  induction Hrow as [|w row Hw _ IH]; simpl; [done|].
  by rewrite words_word, IH.
Qed.

Lemma words_aux_head s : forall w,
  w <> [] -> exists w' ws, words_aux w s = (w ++ w') :: ws.
Proof.
  induction s as [|c s IH]; intros w Hw; simpl.
  - exists [], []. rewrite app_nil_r. by destruct w.
  - destruct (isspace c).
    + exists [], (words_aux [] s). rewrite app_nil_r. by destruct w.
    + destruct (IH (w ++ [c])) as (w' & ws & ->); [by destruct w|].
      exists (c :: w'), ws. by rewrite <- app_assoc.
Qed.

Lemma row_ok_single lim w : row_ok lim [w].
Proof.
  unfold row_ok. simpl. destruct (Z.le_gt_cases (len w) lim); [by left|].
  right. exists w. split; [done|lia].
Qed.

Lemma fill_ok lim ws : forall row,
  row_ok lim row -> Forall (row_ok lim) (fill lim row ws).
Proof.
  induction ws as [|w ws IH]; intros row Hrow; simpl.
  - constructor; [done|constructor].
  - destruct (Z.leb_spec (len (unwords (row ++ [w]))) lim).
    + apply IH. by left.
    + constructor; [done|]. apply IH, row_ok_single.
Qed.

Lemma fill_nonempty lim ws : forall row,
  row <> [] -> Forall (fun r => r <> []) (fill lim row ws).
Proof.
  induction ws as [|w ws IH]; intros row Hrow; simpl.
  - constructor; [done|constructor].
  - destruct (_ <=? _).
    + apply IH. by destruct row.
    + constructor; [done|]. by apply IH.
Qed.

Lemma fill_concat lim ws : forall row,
  List.concat (fill lim row ws) = row ++ ws.
Proof.
  induction ws as [|w ws IH]; intros row; simpl.
  - done.
  - destruct (_ <=? _); simpl; rewrite IH; [by rewrite <- app_assoc|done].
Qed.

Lemma fill_head lim ws : forall x row,
  exists row' rows, fill lim (x :: row) ws = (x :: row') :: rows.
Proof.
  induction ws as [|w ws IH]; intros x row; simpl; [by eauto|].
  destruct (_ <=? _); [apply IH|by eauto].
Qed.

(** The rows of the wrap: within the limit unless a single wide word. *)
Lemma wrapRows_ok s lim : Forall (row_ok lim) (wrapRows s lim).
Proof.
  unfold wrapRows, wrapWords. destruct (words s) as [|w ws]; [constructor|].
  apply fill_ok, row_ok_single.
Qed.

Lemma wrapRows_nonempty s lim : Forall (fun r => r <> []) (wrapRows s lim).
Proof.
  unfold wrapRows, wrapWords. destruct (words s) as [|w ws]; [constructor|].
  by apply fill_nonempty.
Qed.

(** The rows are the words of the text, in order, each word whole. *)
Lemma wrapRows_concat s lim : List.concat (wrapRows s lim) = words s.
Proof.
  unfold wrapRows, wrapWords. destruct (words s) as [|w ws]; [done|].
  apply fill_concat.
Qed.

Lemma wrapRows_words s lim : Forall (Forall is_word) (wrapRows s lim).
Proof.
  pose proof (words_is_word s) as H. rewrite <- (wrapRows_concat s lim) in H.
  induction (wrapRows s lim) as [|r rs IH]; [constructor|].
  simpl in H. apply Forall_app in H as [H1 H2]. constructor; auto.
Qed.

Lemma words_Wrap s lim : words (Wrap s lim) = words s.
Proof.
  unfold Wrap, unlines. rewrite words_Join by done.
  transitivity (List.concat (wrapRows s lim)); [|apply wrapRows_concat].
  f_equal. rewrite map_map.
  pose proof (wrapRows_words s lim) as H.
  induction H as [|r rs Hr _ IH]; simpl; [done|].
  by rewrite words_unwords, IH.
Qed.

(** C7: the word wrap gives rows of whole words, in the order of the text:
    no row is wider than the limit unless it is a single word that is wider
    than the limit by itself, and splitting the wrapped text into words
    gives the words of the text again: no word is broken. *)
Theorem wrap_rows_within_limit (s : gostring) (lim : Z) :
  Wrap s lim = unlines (map unwords (wrapRows s lim))
  /\ Forall (row_ok lim) (wrapRows s lim)
  /\ Forall (fun row => row <> []) (wrapRows s lim)
  /\ List.concat (wrapRows s lim) = words s
  /\ Forall is_word (words s)
  /\ words (Wrap s lim) = words s.
Proof.
  split; [done|]. split; [apply wrapRows_ok|]. split; [apply wrapRows_nonempty|].
  split; [apply wrapRows_concat|]. split; [apply words_is_word|apply words_Wrap].
Qed.

Example Wrap_long_word :
  Wrap (lit "ab  abcdefgh c d") 3 = lit "ab
abcdefgh
c d".
Proof. vm_compute. reflexivity. Qed.

(** * The formatter on lines that are not tabular *)

Lemma wrap64_small z : - 2 ^ 63 <= z < 2 ^ 63 -> wrap64 z = z.
Proof. intros H. unfold wrap64. rewrite Z.mod_small; lia. Qed.

Lemma slice_Repeat c (n : nat) k :
  0 <= k <= Z.of_nat n ->
  slice (Repeat c n) 0 k = Some (Repeat c (Z.to_nat k)).
Proof.
  intros Hk. unfold slice, Repeat, len. rewrite length_replicate.
  destruct (Z.leb_spec 0 0), (Z.leb_spec 0 k), (Z.leb_spec k (Z.of_nat n));
    try lia. simpl.
  change (Z.to_nat 0) with 0%nat. rewrite drop_0, Z.sub_0_r, take_replicate.
  do 2 f_equal. lia.
Qed.

Lemma slice_drop_prefix a b :
  slice (a ++ b) (len a) (len (a ++ b)) = Some b.
Proof.
  unfold slice, len. rewrite length_app.
  destruct (Z.leb_spec 0 (Z.of_nat (length a))); [|lia].
  destruct (Z.leb_spec (Z.of_nat (length a)) (Z.of_nat (length a + length b)));
    [|lia].
  destruct (Z.leb_spec (Z.of_nat (length a + length b))
                       (Z.of_nat (length a + length b))); [|lia].
  simpl. rewrite Nat2Z.id, drop_app_length. f_equal. apply take_ge. lia.
Qed.

Lemma Indent_from_row r : forall s prefix,
  nl ∉ r -> Indent_from false (r ++ s) prefix = r ++ Indent_from false s prefix.
Proof.
  induction r as [|c r IH]; intros s prefix Hr; simpl; [done|].
  apply not_elem_of_cons in Hr as [Hc Hr].
  rewrite bool_decide_eq_false_2 by done. by rewrite IH.
Qed.

Lemma Indent_row r s prefix :
  r <> [] -> nl ∉ r ->
  Indent_from true (r ++ s) prefix = prefix ++ r ++ Indent_from false s prefix.
Proof.
  intros Hne Hr. destruct r as [|c r]; [done|]. simpl.
  apply not_elem_of_cons in Hr as [Hc Hr].
  rewrite bool_decide_eq_false_2 by done. by rewrite Indent_from_row.
Qed.

Lemma Indent_unlines rs prefix :
  Forall (fun r => r <> [] /\ nl ∉ r) rs ->
  Indent (unlines rs) prefix = unlines (map (fun r => prefix ++ r) rs).
Proof.
  unfold Indent, unlines. induction 1 as [|r rs [Hne Hr] Hrs IH]; [done|].
  rewrite map_cons, !Join_cons. destruct rs as [|r' rs].
  - rewrite Indent_row by done. simpl. by rewrite !app_nil_r.
  - rewrite Indent_row by done.
    change (Indent_from false ([nl] ++ Join (r' :: rs) [nl]) prefix)
      with (nl :: Indent_from true (Join (r' :: rs) [nl]) prefix).
    rewrite IH. simpl map. by rewrite <- !app_assoc.
Qed.

Lemma is_word_no_nl w : is_word w -> nl ∉ w.
Proof.
  intros [_ Hw] Hin. rewrite Forall_forall in Hw.
  apply Hw in Hin. vm_compute in Hin. discriminate.
Qed.

Lemma unwords_row row :
  row <> [] -> Forall is_word row -> unwords row <> [] /\ nl ∉ unwords row.
Proof.
  unfold unwords. intros Hne Hrow.
  induction Hrow as [|w row Hw Hrow IH]; [done|].
  rewrite Join_cons. split.
  - destruct Hw as [Hw _]. by destruct w.
  - destruct row as [|w' row]; [rewrite app_nil_r; by apply is_word_no_nl|].
    rewrite !not_elem_of_app. split; [by apply is_word_no_nl|].
    split; [|by apply IH].
    rewrite list_elem_of_singleton. discriminate.
Qed.

Lemma wrapRows_rendered s lim :
  Forall (fun r => r <> [] /\ nl ∉ r) (map unwords (wrapRows s lim)).
Proof.
  apply Forall_map.
  pose proof (wrapRows_nonempty s lim) as H1.
  pose proof (wrapRows_words s lim) as H2.
  induction H1 as [|r rs Hr _ IH]; [constructor|].
  apply Forall_cons in H2 as [H2 H3].
  constructor; [by apply unwords_row|by apply IH].
Qed.

(** The filler in front of the text stays in front of the wrapped text. *)
Lemma Wrap_filler filler s lim :
  Forall (fun c => isspace c = false) filler ->
  exists rest, Wrap (filler ++ s) lim = filler ++ rest.
Proof.
  intros Hf. destruct filler as [|c filler]; [by exists (Wrap s lim)|].
  unfold Wrap, wrapRows, words. rewrite words_aux_nospace by done. simpl app at 1.
  destruct (words_aux_head s (c :: filler)) as (w' & ws & ->); [done|].
  unfold wrapWords.
  destruct (fill_head lim ws ((c :: filler) ++ w') []) as (row' & rows & ->).
  unfold unlines, unwords. rewrite map_cons, !Join_cons.
  rewrite <- !app_assoc. eauto.
Qed.

Lemma Repeat_nospace c n :
  isspace c = false -> Forall (fun c' => isspace c' = false) (Repeat c n).
Proof. intros Hc. unfold Repeat. by apply Forall_replicate. Qed.

Lemma words_space_front pre x :
  Forall (fun c => isspace c = true) pre -> words (pre ++ x) = words x.
Proof.
  unfold words. induction 1 as [|c pre Hc _ IH]; [done|].
  simpl. by rewrite Hc.
Qed.

(** The words of a text behind a word [w] that is read already: the run [p]
    up to the first white space continues [w], the words [tl] follow. *)
Lemma words_aux_split x :
  exists p tl, forall w,
    words_aux w x = match w ++ p with [] => tl | _ => (w ++ p) :: tl end.
Proof.
  induction x as [|c x (p & tl & IH)].
  - exists [], []. intros w. simpl. rewrite app_nil_r. by destruct w.
  - destruct (isspace c) eqn:Hc.
    + exists [], (words_aux [] x). intros w. simpl. rewrite Hc, app_nil_r.
      by destruct w.
    + exists (c :: p), tl. intros w. simpl. rewrite Hc, IH.
      by rewrite <- app_assoc.
Qed.

(** Two texts that have the same words behind the same filler have the same
    words. *)
Lemma words_cancel_filler w x y :
  Forall (fun c => isspace c = false) w ->
  words (w ++ x) = words (w ++ y) -> words x = words y.
Proof.
  intros Hw. destruct w as [|c w]; [done|].
  unfold words. rewrite !words_aux_nospace by done. cbn [app].
  destruct (words_aux_split x) as (px & tlx & Hx).
  destruct (words_aux_split y) as (py & tly & Hy).
  rewrite (Hx (c :: w)), (Hy (c :: w)), (Hx []), (Hy []). simpl.
  intros [= Hp ->]. apply app_inv_head in Hp as ->. done.
Qed.

Lemma Repeat_space n : Forall (fun c => isspace c = true) (Repeat sp n).
Proof. unfold Repeat. by apply Forall_replicate. Qed.

Lemma words_Indent_Wrap s lim n :
  words (Indent (Wrap s lim) (Repeat sp n)) = words s.
Proof.
  unfold Wrap. rewrite Indent_unlines by apply wrapRows_rendered.
  rewrite <- (words_Wrap s lim). unfold Wrap, unlines.
  rewrite !words_Join by done. f_equal.
  induction (map unwords (wrapRows s lim)) as [|r rs IH]; [done|].
  simpl. by rewrite words_space_front, IH by apply Repeat_space.
Qed.

(** C5, as the code has it: a tabular line is never wrapped: its text goes
    to the column writer as it is, whatever its width.  A line that is not
    tabular (nor blank) is not rejected when the tab stop and its indentation
    are within the 256 bytes of the filler strings: it goes through the word
    wrap, a plain line with the limit [length], an indented line with the
    limit [length] and its indentation counted as a part of its first word, a
    quoted line with the limit [length - 2 * tabstop] and a margin of
    [tabstop] spaces; and all the words of an ASCII text come out, whole and
    in order.  How wide the rows are is up to the word wrap. *)
Theorem format_wraps_unless_tabular (f : Flag.flags) (l : line) (st : fstate) :
  (tabular l = true ->
   format_line f l st = Some (FState (tabw st ++ text l ++ [nl]) (buf st)))
  /\ (0 < Flag.length f < 2 ^ 63 ->
      0 <= Flag.tabstop f <= 256 ->
      0 <= indent l <= 256 ->
      tabular l = false -> blank l = false ->
      exists out : gostring,
        format_switch f l = Some out
        /\ format_line f l st
           = Some (FState [] (buf st ++ tabrender (tabw st) ++ out ++ [nl]))
        /\ (is_ascii (text l) -> words out = words (text l))
        /\ if quoted l then
             out = Indent (Wrap (text l)
                             (Flag.length f - 2 * Flag.tabstop f))
                          (Repeat sp (Z.to_nat (Flag.tabstop f)))
           else if indented l then
             exists rest,
               Wrap (Repeat (ascii_of_nat 64) (Z.to_nat (indent l)) ++ text l)
                    (Flag.length f)
               = Repeat (ascii_of_nat 64) (Z.to_nat (indent l)) ++ rest
               /\ out = Repeat sp (Z.to_nat (indent l)) ++ rest
           else out = Wrap (text l) (Flag.length f)).
Proof.
  split.
  { intros Ht. unfold format_line. by rewrite Ht. }
  intros Hlen Hts Hind Ht Hb.
  assert (forall out, format_switch f l = Some out ->
            format_line f l st
            = Some (FState [] (buf st ++ tabrender (tabw st) ++ out ++ [nl])))
    as Hline.
  { intros out Hout. unfold format_line. rewrite Ht, Hout. simpl.
    by rewrite <- app_assoc. }
  unfold format_switch in *. rewrite Hb in *.
  destruct (quoted l); [|destruct (indented l)].
  - rewrite (wrap64_small (Flag.tabstop f * 2)) in * by lia.
    rewrite (wrap64_small (Flag.length f - _)) in * by lia.
    unfold spaces in *. rewrite slice_Repeat in * by lia. simpl in *.
    replace (Flag.tabstop f * 2) with (2 * Flag.tabstop f) in * by lia.
    eexists. split; [done|]. split; [by apply Hline|].
    split; [intros _; apply words_Indent_Wrap|done].
  - unfold ats, spaces in *. rewrite !slice_Repeat in * by lia. simpl in *.
    destruct (Wrap_filler (Repeat (ascii_of_nat 64) (Z.to_nat (indent l)))
                (text l) (Flag.length f)) as [rest Hrest];
      [by apply Repeat_nospace|].
    assert (len (Repeat (ascii_of_nat 64) (Z.to_nat (indent l))) = indent l)
      as Hlenf by (unfold len, Repeat; rewrite length_replicate; lia).
    assert (slice (Wrap (Repeat (ascii_of_nat 64) (Z.to_nat (indent l)) ++ text l)
                     (Flag.length f)) (indent l)
              (len (Wrap (Repeat (ascii_of_nat 64) (Z.to_nat (indent l)) ++ text l)
                      (Flag.length f))) = Some rest) as Hslice.
    { rewrite Hrest. rewrite <- Hlenf at 2. apply slice_drop_prefix. }
    rewrite Hslice in *. simpl in *.
    eexists. split; [done|]. split; [by apply Hline|]. split.
    + intros _. rewrite words_space_front by apply Repeat_space.
      apply (words_cancel_filler
               (Repeat (ascii_of_nat 64) (Z.to_nat (indent l))));
        [by apply Repeat_nospace|].
      by rewrite <- Hrest, words_Wrap.
    + exists rest. split; [exact Hrest|done].
  - eexists. split; [done|]. split; [by apply Hline|].
    split; [intros _; apply words_Wrap|done].
Qed.

Lemma format_wraps_unless_tabular_witness :
  (0 < Flag.length Flag.default < 2 ^ 63)
  /\ (0 <= Flag.tabstop Flag.default <= 256)
  /\ (0 <= indent (Line (lit "a b") 2 true false false false false) <= 256)
  /\ exists out,
      format_switch Flag.default
        (Line (lit "a b") 2 true false false false false) = Some out
      /\ words out = [lit "a"; lit "b"].
Proof.
  split; [simpl; lia|]. split; [simpl; lia|]. split; [simpl; lia|].
  destruct (proj2 (format_wraps_unless_tabular Flag.default
                     (Line (lit "a b") 2 true false false false false) fstate0))
    as (out & Hout & _ & Hw & _);
    [simpl; lia|simpl; lia|simpl; lia|reflexivity|reflexivity|].
  exists out. split; [exact Hout|]. apply Hw.
  unfold is_ascii. simpl. repeat constructor.
Defined.

(** C5 fails as stated.  With a maximum length of five, the tabular line
    ["aaaa bbbb<tab>cccc"] goes to the column writer whole and comes out as
    one row wider than five that holds three words, none of them wider than
    five.  With a maximum length of twelve, the line of ten spaces and the
    word ["abcdef"] comes out as a row of sixteen bytes: its only word is
    not wider than twelve. *)
Lemma tabular_line_not_wrapped :
  format_loop {| Flag.length := 5; Flag.tabstop := 4; Flag.join := false |}
    [Line (lit "aaaa bbbb	cccc") 0 false false false true false] fstate0
  = Some (FState (lit "aaaa bbbb	cccc" ++ [nl]) [])
  /\ (exists row,
        ted {| Flag.length := 5; Flag.tabstop := 4; Flag.join := false |}
            [lit "aaaa bbbb	cccc"] = Some (row ++ [nl])
        /\ (nl ∉ row)
        /\ 5 < len row
        /\ words row = [lit "aaaa"; lit "bbbb"; lit "cccc"])
  /\ ted {| Flag.length := 12; Flag.tabstop := 4; Flag.join := false |}
         [lit "          abcdef"]
     = Some (lit "          abcdef" ++ [nl])
  /\ 12 < len (lit "          abcdef")
  /\ words (lit "          abcdef") = [lit "abcdef"].
Proof.
  split; [vm_compute; reflexivity|]. split.
  - exists (lit "aaaa bbbb cccc "). split; [vm_compute; reflexivity|].
    split; [|split; vm_compute; reflexivity].
    intros H. apply list_elem_of_In in H. simpl in H.
    repeat (destruct H as [H|H]; [discriminate H|]). done.
  - repeat split; vm_compute; reflexivity.
Qed.

(** * Where the formatter does not panic *)

Lemma format_switch_total f l :
  0 <= Flag.tabstop f <= 256 -> 0 <= indent l <= 256 ->
  is_Some (format_switch f l).
Proof.
  intros Hts Hind. unfold format_switch.
  destruct (blank l); [by eauto|].
  destruct (quoted l); [|destruct (indented l); [|by eauto]].
  - unfold spaces. rewrite slice_Repeat by lia. simpl. eauto.
  - unfold ats, spaces. rewrite !slice_Repeat by lia. simpl.
    destruct (Wrap_filler (Repeat (ascii_of_nat 64) (Z.to_nat (indent l)))
                (text l) (Flag.length f)) as [rest Hrest];
      [by apply Repeat_nospace|].
    rewrite Hrest.
    replace (indent l)
      with (len (Repeat (ascii_of_nat 64) (Z.to_nat (indent l)))) at 2
      by (unfold len, Repeat; rewrite length_replicate; lia).
    rewrite slice_drop_prefix. simpl. eauto.
Qed.

Lemma format_loop_total f ls : forall st,
  0 <= Flag.tabstop f <= 256 ->
  Forall (fun l => 0 <= indent l <= 256) ls ->
  is_Some (format_loop f ls st).
Proof.
  induction ls as [|l ls IH]; intros st Hts Hls; simpl; [by eauto|].
  apply Forall_cons in Hls as [Hl Hls].
  unfold format_line. destruct (tabular l); simpl; [by apply IH|].
  destruct (format_switch_total f l Hts Hl) as [t ->]. simpl. by apply IH.
Qed.

(** With a tab stop and indentations within the 256 bytes of the filler
    strings the formatter returns its output. *)
Lemma format_total f ls :
  0 <= Flag.tabstop f <= 256 ->
  Forall (fun l => 0 <= indent l <= 256) ls ->
  is_Some (format f ls).
Proof.
  intros Hts Hls. rewrite format_unfold by lia.
  destruct (format_loop_total f ls fstate0 Hts Hls) as [st ->]. simpl. eauto.
Qed.

(** C2 fails in the code: a raw line with 257 spaces in front of a letter
    is classified with an indentation of 257 columns, and the formatter
    panics on it, slicing the 256 bytes of [ats] up to 257. *)
Theorem format_panics_on_deep_indent :
  readlines Flag.default [Repeat sp 257 ++ lit "x"]
  = Some [Line (lit "x") 257 true false false false false]
  /\ slice ats 0 257 = None
  /\ format Flag.default [Line (lit "x") 257 true false false false false] = None
  /\ ted Flag.default [Repeat sp 257 ++ lit "x"] = None.
Proof. repeat split; vm_compute; reflexivity. Qed.

(** * Tabular blocks *)

Lemma format_loop_app f ls1 : forall ls2 st,
  format_loop f (ls1 ++ ls2) st
  = st' ← format_loop f ls1 st; format_loop f ls2 st'.
Proof.
  induction ls1 as [|l ls1 IH]; intros ls2 st; simpl; [done|].
  destruct (format_line f l st); simpl; [apply IH|done].
Qed.

Lemma format_loop_tabular f blk : forall st,
  Forall (fun l => tabular l = true) blk ->
  format_loop f blk st = Some (FState (tabw st ++ written blk) (buf st)).
Proof.
  induction blk as [|l blk IH]; intros st Hblk.
  - simpl. unfold written. simpl. rewrite app_nil_r. by destruct st.
  - apply Forall_cons in Hblk as [Hl Hblk]. simpl.
    unfold format_line. rewrite Hl. simpl. rewrite IH by done. simpl.
    unfold written. simpl. by rewrite <- !app_assoc.
Qed.

Lemma format_line_front f l o st :
  format_line f l (with_front o st) = with_front o <$> format_line f l st.
Proof.
  unfold format_line, with_front. destruct (tabular l); simpl; [done|].
  destruct (format_switch f l); simpl; [|done].
  by rewrite <- !app_assoc.
Qed.

Lemma format_loop_front f ls o : forall st,
  format_loop f ls (with_front o st) = with_front o <$> format_loop f ls st.
Proof.
  induction ls as [|l ls IH]; intros st; simpl; [done|].
  rewrite format_line_front. destruct (format_line f l st); simpl; [apply IH|done].
Qed.

Lemma format_line_plain_tabw f l st st' :
  tabular l = false -> format_line f l st = Some st' -> tabw st' = [].
Proof.
  intros Hl. unfold format_line. rewrite Hl.
  destruct (format_switch f l); simpl; [|done]. by intros [= <-].
Qed.

Lemma format_loop_ends_plain f ls : forall st st',
  tabw st = [] -> ends_plain ls -> format_loop f ls st = Some st' ->
  tabw st' = [].
Proof.
  destruct ls as [|l ls _] using rev_ind; intros st st' Hst Hends.
  - simpl. by intros [= <-].
  - unfold ends_plain in Hends. rewrite last_snoc in Hends.
    rewrite format_loop_app.
    destruct (format_loop f ls st) as [st1|]; simpl; [|done].
    destruct (format_line f l st1) as [st2|] eqn:H2; simpl; [|done].
    intros [= <-]. by eapply format_line_plain_tabw.
Qed.

(** What is in the column writer when a line that is not tabular arrives
    comes out in front of that line, and of nothing else. *)
Lemma format_from_pending f post w b :
  0 <= Flag.tabstop f ->
  starts_plain post ->
  (st ← format_loop f post (FState w b); Some (buf (Flush st)))
  = (o ← format f post; Some (b ++ tabrender w ++ o)).
Proof.
  intros Hts Hpost. rewrite format_unfold by done. destruct post as [|l post].
  - simpl. by rewrite !app_nil_r.
  - unfold starts_plain in Hpost. simpl in Hpost. simpl.
    unfold format_line. rewrite Hpost. simpl.
    destruct (format_switch f l) as [t|]; simpl; [|done].
    change (FState [] ((b ++ tabrender w) ++ t ++ [nl]))
      with (with_front (b ++ tabrender w) (FState [] (t ++ [nl]))).
    rewrite format_loop_front.
    destruct (format_loop f post (FState [] (t ++ [nl]))) as [st|]; simpl; [|done].
    by rewrite <- !app_assoc.
Qed.

Lemma fieldWidth_le_colWidth rows row j :
  row ∈ rows -> fieldWidth row j + 1 <= colWidth rows j.
Proof.
  unfold colWidth. induction 1 as [row rows|row row' rows _ IH]; simpl; lia.
Qed.

Lemma len_pad fld w : len fld <= w -> len (pad fld w) = w.
Proof.
  intros H. unfold pad, len, Repeat in *.
  rewrite length_app, length_replicate. lia.
Qed.

Lemma buffered_line s : forall cur rest,
  nl ∉ s -> buffered cur (s ++ nl :: rest) = (cur ++ s) :: buffered [] rest.
Proof.
  induction s as [|c s IH]; intros cur rest Hs; simpl.
  - by rewrite app_nil_r.
  - apply not_elem_of_cons in Hs as [Hc Hs].
    rewrite bool_decide_eq_false_2 by congruence.
    rewrite IH by done. by rewrite <- app_assoc.
Qed.

(** The rows of a run of lines without newlines are the lines, each split
    into its fields at the tabs. *)
Lemma tabRows_written blk :
  Forall (fun l => nl ∉ text l) blk ->
  tabRows (written blk) = map (fun l => split_on tab [] (text l)) blk.
Proof.
  unfold tabRows, written. induction 1 as [|l blk Hl _ IH]; [done|].
  simpl. rewrite <- app_assoc. simpl.
  rewrite buffered_line by done. simpl. by rewrite IH.
Qed.

Lemma renderCells_lookup (rows : list (list gostring)) (row : list gostring)
    (j : nat) (fld : gostring) :
  row ∈ rows -> row !! j = Some fld ->
  exists k : nat,
    (1 <= k)%nat
    /\ renderCells rows row !! j = Some (fld ++ Repeat sp k)
    /\ len (fld ++ Repeat sp k) = colWidth rows j.
Proof.
  intros Hrow Hfld.
  pose proof (fieldWidth_le_colWidth _ _ j Hrow) as Hw.
  unfold fieldWidth in Hw. rewrite Hfld in Hw.
  exists (Z.to_nat (colWidth rows j - len fld)). split; [lia|]. split.
  - unfold renderCells. rewrite list_lookup_imap, Hfld. done.
  - apply len_pad. lia.
Qed.

(** C8: a run of tabular lines between lines that are not tabular (or the
    ends of the sequence) is rendered from its own lines only: the output is
    the output for the lines before, then the rows of the run, then the
    output for the lines after.  The rows of the run are its lines split at
    the tabs (the lines holding no newline), and each comes out as its
    fields, every field followed by at least one space and so padded to the
    width of its column; that width is the same in all the rows of the run
    and at least the width of any field of the run in that column plus one
    separator space. *)
Theorem tabular_block_columns (f : Flag.flags) (pre blk post : list line)
    (o1 o3 : gostring) :
  Forall (fun l => tabular l = true) blk ->
  ends_plain pre ->
  starts_plain post ->
  format f pre = Some o1 ->
  format f post = Some o3 ->
  format f (pre ++ blk ++ post)
  = Some (o1
          ++ List.concat
               (map (fun row =>
                       List.concat (renderCells (tabRows (written blk)) row)
                         ++ [nl])
                    (tabRows (written blk)))
          ++ o3)
  /\ (Forall (fun l => nl ∉ text l) blk ->
      tabRows (written blk) = map (fun l => split_on tab [] (text l)) blk)
  /\ forall (row : list gostring),
      row ∈ tabRows (written blk) ->
      length (renderCells (tabRows (written blk)) row) = length row
      /\ forall (j : nat) (fld : gostring),
          row !! j = Some fld ->
          len fld + 1 <= colWidth (tabRows (written blk)) j
          /\ exists k : nat,
              (1 <= k)%nat
              /\ renderCells (tabRows (written blk)) row !! j
                 = Some (fld ++ Repeat sp k)
              /\ len (fld ++ Repeat sp k)
                 = colWidth (tabRows (written blk)) j.
Proof.
  intros Hblk Hpre Hpost Ho1 Ho3. split; [|split].
  - pose proof (format_Some_tabstop _ _ _ Ho1) as Hts.
    rewrite format_unfold in Ho1 by done.
    destruct (format_loop f pre fstate0) as [st1|] eqn:Hst1; simpl in Ho1; [|done].
    assert (tabw st1 = []) as Ht1
      by (by apply (format_loop_ends_plain f pre fstate0 st1)).
    injection Ho1 as <-. rewrite Ht1. simpl. rewrite app_nil_r.
    rewrite (format_unfold f (pre ++ blk ++ post)) by done.
    rewrite format_loop_app, Hst1. simpl.
    rewrite format_loop_app, format_loop_tabular by done. simpl.
    rewrite Ht1. simpl.
    pose proof (format_from_pending f post (written blk) (buf st1) Hts Hpost)
      as H.
    rewrite Ho3 in H. exact H.
  - apply tabRows_written.
  - intros row Hrow. split.
    + unfold renderCells. by rewrite length_imap.
    + intros j fld Hfld.
      pose proof (fieldWidth_le_colWidth _ _ j Hrow) as Hw.
      unfold fieldWidth in Hw. rewrite Hfld in Hw.
      split; [done|]. by apply renderCells_lookup.
Qed.

Lemma tabular_block_columns_witness :
  Forall (fun l => tabular l = true)
    [Line (lit "one	two") 0 false false false true false;
     Line (lit "1	22") 0 false false false true false]
  /\ format Flag.default
       ([Line (lit "a") 0 false false false false false]
          ++ [Line (lit "one	two") 0 false false false true false;
              Line (lit "1	22") 0 false false false true false]
          ++ [Line (lit "z") 0 false false false false false])
     = Some (lit "a
one two 
1   22  
z
")
  /\ len (lit "one") + 1
     <= colWidth
          (tabRows
             (written
                [Line (lit "one	two") 0 false false false true false;
                 Line (lit "1	22") 0 false false false true false])) 0.
Proof.
  assert (Forall (fun l => tabular l = true)
            [Line (lit "one	two") 0 false false false true false;
             Line (lit "1	22") 0 false false false true false]) as H
    by (repeat constructor).
  split; [exact H|].
  destruct (tabular_block_columns Flag.default
              [Line (lit "a") 0 false false false false false]
              [Line (lit "one	two") 0 false false false true false;
               Line (lit "1	22") 0 false false false true false]
              [Line (lit "z") 0 false false false false false]
              (lit "a
") (lit "z
") H) as (Hout & _ & Hcols);
    [reflexivity|reflexivity|vm_compute; reflexivity|vm_compute; reflexivity|].
  split.
  - rewrite Hout. vm_compute. reflexivity.
  - refine (proj1 (proj2 (Hcols [lit "one"; lit "two"] _) 0%nat (lit "one") _));
      [|reflexivity].
    apply list_elem_of_In. left. vm_compute. reflexivity.
Defined.

(** The two tab-separated lines of the scenario come out with their second
    column at the same offset. *)
Example two_rows_aligned :
  ted Flag.default [lit "one	two"; lit "1	22"] = Some (lit "one two 
1   22  
").
Proof. vm_compute. reflexivity. Qed.

(** * More on the classifier *)

Lemma scan_step_after_indent ts st ir :
  s_inIndent st = false ->
  exists st', scan_step ts st ir = Some st'
    /\ s_inIndent st' = false
    /\ s_indent st' = s_indent st
    /\ s_indentChars st' = s_indentChars st.
Proof.
  intros Hin. destruct ir as [i r]. unfold scan_step. rewrite Hin.
  destruct (r =? 9); [by eauto|].
  destruct (IsSpace r); by eauto.
Qed.

(** Behind the first rune that is no white space the loop cannot panic and
    leaves the indentation alone. *)
Lemma scan_loop_after_indent ts irs : forall st,
  s_inIndent st = false ->
  exists st', scan_loop ts st irs = Some st'
    /\ s_inIndent st' = false
    /\ s_indent st' = s_indent st
    /\ s_indentChars st' = s_indentChars st.
Proof.
  induction irs as [|ir irs IH]; intros st Hin; simpl; [by eauto|].
  destruct (scan_step_after_indent ts st ir Hin) as (st1 & -> & H1 & H2 & H3).
  simpl. destruct (IH st1 H1) as (st' & -> & H4 & H5 & H6).
  exists st'. repeat split; congruence.
Qed.

Lemma IsSpace_tab : IsSpace 9 = true.
Proof. reflexivity. Qed.

Lemma tab_in_indent_cons i r irs :
  tab_in_indent ((i, r) :: irs)
  <-> r = 9 \/ (IsSpace r = true /\ tab_in_indent irs).
Proof.
  unfold tab_in_indent. split.
  - intros (irs1 & i' & irs2 & Heq & Hsp).
    destruct irs1 as [|ir1 irs1]; simpl in Heq.
    + injection Heq as -> -> ->. by left.
    + injection Heq as <- ->. apply Forall_cons in Hsp as [Hr Hsp].
      right. split; [done|]. by eauto.
  - intros [->|(Hr & irs1 & i' & irs2 & -> & Hsp)].
    + exists [], i, irs. split; [done|constructor].
    + exists ((i, r) :: irs1), i', irs2. split; [done|]. by constructor.
Qed.

Lemma scan_loop_None ts irs : forall st,
  scan_loop ts st irs = None
  <-> ts = 0 /\ s_inIndent st = true /\ tab_in_indent irs.
Proof.
  induction irs as [|[i r] irs IH]; intros st; simpl.
  - split; [done|]. intros (_ & _ & irs1 & i & irs2 & Heq & _).
    by destruct irs1.
  - rewrite tab_in_indent_cons.
    destruct (s_inIndent st) eqn:Hin.
    + unfold scan_step. rewrite Hin.
      destruct (Z.eqb_spec r 9) as [->|Hr].
      * unfold gorem. destruct (Z.eqb_spec ts 0) as [Hts|Hts]; simpl.
        -- split; [by auto|done].
        -- rewrite IH. simpl. split; [by intros (? & _)|by intros (? & _)].
      * destruct (IsSpace r) eqn:Hsp; simpl.
        -- rewrite IH. simpl. split.
           ++ intros (? & _ & ?). by auto.
           ++ intros (? & _ & [?|[_ ?]]); [done|by auto].
        -- destruct (scan_loop_after_indent ts irs
                       (Scan (s_indent st) (s_indentChars st) (s_lastTab st)
                             (s_tabCount st) false) eq_refl) as (st' & -> & _).
           split; [done|]. intros (_ & _ & [?|[? _]]); done.
    + destruct (scan_step_after_indent ts st (i, r) Hin) as (st1 & -> & H1 & _).
      simpl. destruct (scan_loop_after_indent ts irs st1 H1) as (st' & -> & _).
      split; [done|]. by intros (_ & ? & _).
Qed.

Lemma readline_slice_ok ts txt st :
  scan_loop ts scan0 (range txt) = Some st ->
  slice txt (s_indentChars st) (len txt)
  = Some (drop (Z.to_nat (s_indentChars st)) txt)
  /\ 0 <= s_indentChars st <= len txt.
Proof.
  intros Hst.
  pose proof (scan_loop_chars _ _ _ _ Hst) as Hc. simpl in Hc.
  pose proof (runes_from_length txt 0 0%nat) as Hr. fold (range txt) in Hr.
  assert (0 <= s_indentChars st <= len txt) as Hb by (unfold len; lia).
  split; [|done].
  destruct (slice_total txt (s_indentChars st) (len txt)) as [body Hbody];
    [lia|lia|].
  rewrite Hbody. by apply slice_to_end in Hbody as [-> _].
Qed.

(** X1: the classifier panics on exactly one kind of input: the tab stop is
    zero and a tab stands in the leading white space of the line, where the
    column of the tab is computed by a division by the tab stop. *)
Theorem readline_panics_iff (ts : Z) (raw : gostring) :
  readline ts raw = None
  <-> ts = 0 /\ tab_in_indent (range (strip raw).1).
Proof.
  unfold readline. destruct (strip raw) as [txt incompl]. simpl.
  destruct (scan_loop ts scan0 (range txt)) as [st|] eqn:Hst; simpl.
  - destruct (readline_slice_ok ts txt st Hst) as [-> _]. simpl.
    split; [done|]. intros [Hts Htab].
    assert (scan_loop ts scan0 (range txt) = None) as HN
      by (apply scan_loop_None; auto).
    congruence.
  - apply scan_loop_None in Hst as (? & _ & ?). split; auto.
Qed.

Example readline_panics_tab0 : readline 0 (lit " 	x") = None.
Proof. reflexivity. Qed.

Example readline_tab0_late : is_Some (readline 0 (lit "x	y")).
Proof. vm_compute. eauto. Qed.

Lemma scan_step_inIndent ts st i r st' :
  scan_step ts st (i, r) = Some st' ->
  s_inIndent st' = s_inIndent st && IsSpace r.
Proof.
  unfold scan_step. destruct (Z.eqb_spec r 9) as [->|Hr].
  - rewrite IsSpace_tab, andb_true_r. destruct (s_inIndent st).
    + destruct (gorem _ _); simpl; [|done]. by intros [= <-].
    + by intros [= <-].
  - destruct (IsSpace r); [destruct (s_inIndent st) eqn:Hin|];
      intros [= <-]; simpl; by rewrite ?Hin, ?andb_false_r.
Qed.

Lemma scan_loop_inIndent ts irs : forall st st',
  scan_loop ts st irs = Some st' ->
  (s_inIndent st' = true
   <-> s_inIndent st = true /\ Forall (fun ir => IsSpace ir.2 = true) irs).
Proof.
  induction irs as [|[i r] irs IH]; intros st st'; simpl.
  - intros [= <-]. split; [by auto|by intros [? _]].
  - destruct (scan_step ts st (i, r)) as [st1|] eqn:H1; simpl; [|done].
    intros H. rewrite (IH _ _ H), (scan_step_inIndent _ _ _ _ _ H1).
    rewrite Forall_cons, andb_true_iff. simpl. tauto.
Qed.

(** X2: a line is blank exactly when every rune of it, the final backslash
    apart, is white space; the empty line is blank. *)
Theorem blank_iff_all_space (ts : Z) (raw : gostring) (l : line) :
  readline ts raw = Some l ->
  (blank l = true
   <-> Forall (fun ir => IsSpace ir.2 = true) (range (strip raw).1)).
Proof.
  unfold readline. destruct (strip raw) as [txt incompl]. simpl.
  destruct (scan_loop ts scan0 (range txt)) as [st|] eqn:Hst; simpl; [|done].
  destruct (slice _ _ _); simpl; [|done].
  intros [= <-]. simpl.
  rewrite (scan_loop_inIndent _ _ _ _ Hst). simpl. tauto.
Qed.

Lemma blank_iff_all_space_witness :
  readline 4 (lit " 	 \") = Some (Line [] 5 true true true false false)
  /\ Forall (fun ir => IsSpace ir.2 = true) (range (strip (lit " 	 \")).1).
Proof.
  assert (readline 4 (lit " 	 \")
          = Some (Line [] 5 true true true false false)) as H
    by (vm_compute; reflexivity).
  split; [exact H|].
  exact (proj1 (blank_iff_all_space 4 _ _ H) eq_refl).
Defined.

Lemma readline_total_from ts raw st :
  scan_loop ts scan0 (range (strip raw).1) = Some st ->
  is_Some (readline ts raw).
Proof.
  unfold readline. destruct (strip raw) as [txt incompl]. simpl.
  intros Hst. rewrite Hst. simpl.
  destruct (readline_slice_ok ts txt st Hst) as [-> _]. simpl. eauto.
Qed.

Lemma readline_flags ts raw l :
  readline ts raw = Some l ->
  exists st,
    scan_loop ts scan0 (range (strip raw).1) = Some st
    /\ s_tabCount st = tab_count (strip raw).1
    /\ s_lastTab st = last_tab 0 0 (strip raw).1
    /\ l = {| text := drop (Z.to_nat (s_indentChars st)) (strip raw).1;
              indent := s_indent st;
              indented := 0 <? s_indent st;
              incomplete := (strip raw).2;
              blank := s_inIndent st;
              tabular := negb (s_inIndent st) && (0 <? s_tabCount st)
                         && negb (negb (s_inIndent st) && (0 <? s_tabCount st)
                                  && (s_lastTab st + 1 =? s_tabCount st));
              quoted := negb (s_inIndent st) && (0 <? s_tabCount st)
                        && (s_lastTab st + 1 =? s_tabCount st) |}.
Proof.
  unfold readline. destruct (strip raw) as [txt incompl]. simpl.
  destruct (scan_loop ts scan0 (range txt)) as [st|] eqn:Hst; simpl; [|done].
  destruct (readline_slice_ok ts txt st Hst) as [-> _]. simpl.
  intros [= <-]. exists st. split; [done|].
  apply scan_loop_tabs in Hst as [Hc Hl]; [|constructor]. simpl in Hc, Hl.
  rewrite Z.add_0_l in Hc. done.
Qed.

(** X3: a line is tabular exactly when it is not blank, holds a tab, and
    its tabs are not all at the very start: with the quoted lines, the
    tabular lines are all the lines with a tab that are not blank. *)
Theorem tabular_iff_tab_inside (ts : Z) (raw : gostring) (l : line) :
  readline ts raw = Some l ->
  (tabular l = true
   <-> blank l = false /\ tab ∈ (strip raw).1 /\ ~ tabs_lead (strip raw).1).
Proof.
  intros Hl. apply readline_flags in Hl as (st & _ & Hc & Hlast & ->). simpl.
  rewrite Hc, Hlast. set (txt := (strip raw).1).
  pose proof (tab_count_nonneg txt) as Hnn.
  pose proof (tab_count_zero txt) as Hz.
  destruct (s_inIndent st); simpl; [split; [done|by intros [? _]]|].
  destruct (Z.ltb_spec 0 (tab_count txt)) as [Hpos|Hpos]; simpl.
  - destruct (last_tab_lead txt 0 0 Hpos) as [_ Hiff].
    assert (tab ∈ txt) as Hin.
    { destruct (decide (tab ∈ txt)) as [|Hn]; [done|]. apply Hz in Hn. lia. }
    destruct (Z.eqb_spec (last_tab 0 0 txt + 1) (tab_count txt)) as [He|He]; simpl.
    + split; [done|]. intros (_ & _ & Hn). exfalso. apply Hn, Hiff. lia.
    + split; [|done]. intros _. split; [done|]. split; [done|].
      intros H. apply Hiff in H. lia.
  - split; [done|]. intros (_ & Hin & _). exfalso.
    assert (tab_count txt = 0) as H0 by lia. apply Hz in H0. done.
Qed.

Lemma tabular_iff_tab_inside_witness :
  readline 4 (lit "a	b") = Some (Line (lit "a	b") 0 false false false true false)
  /\ tab ∈ (strip (lit "a	b")).1.
Proof.
  assert (readline 4 (lit "a	b")
          = Some (Line (lit "a	b") 0 false false false true false)) as H
    by (vm_compute; reflexivity).
  split; [exact H|].
  exact (proj1 (proj2 (proj1 (tabular_iff_tab_inside 4 _ _ H) eq_refl))).
Defined.

Lemma range_cons c s :
  exists r size, decoderune (c :: s) = (r, size)
    /\ range (c :: s) = (0, r) :: runes_from 1 (size - 1) s.
Proof.
  unfold range. simpl. destruct (decoderune (c :: s)) as [r size]. eauto.
Qed.

Lemma flush_left_no_lead s : flush_left s -> ~ tabs_lead s.
Proof.
  intros Hf (n & rest & Hn & -> & _). destruct n; [lia|].
  unfold flush_left in Hf. simpl replicate in Hf. simpl app in Hf.
  destruct (range_cons tab (replicate n tab ++ rest)) as (r & size & Hd & Hr).
  rewrite Hr in Hf. simpl in Hf.
  apply decoderune_tab in Hd as (Hr9 & _).
  assert (r = 9) as -> by (by apply Hr9). done.
Qed.

Lemma flush_left_scan ts s :
  s <> [] -> flush_left s ->
  exists st, scan_loop ts scan0 (range s) = Some st
             /\ s_inIndent st = false /\ s_indent st = 0
             /\ s_indentChars st = 0.
Proof.
  intros Hne Hflush. unfold flush_left in Hflush.
  destruct s as [|c s]; [done|].
  destruct (range_cons c s) as (r & size & _ & Hr). rewrite Hr in *.
  simpl in Hflush. simpl. unfold scan_step.
  destruct (Z.eqb_spec r 9) as [->|_]; [done|]. rewrite Hflush. simpl.
  destruct (scan_loop_after_indent ts (runes_from 1 (size - 1) s)
              (Scan 0 0 0 0 false) eq_refl) as (st & -> & ? & ? & ?).
  by eauto.
Qed.

Lemma flush_left_no_tab s : flush_left s -> ~ tab_in_indent (range s).
Proof.
  unfold flush_left. intros Hf (irs1 & i & irs2 & Heq & Hsp).
  rewrite Heq in Hf. destruct irs1 as [|ir irs1]; simpl in Hf; [done|].
  apply Forall_cons in Hsp as [Hir _]. congruence.
Qed.

Lemma readline_flush_left_flags ts raw l :
  flush_left (strip raw).1 ->
  readline ts raw = Some l ->
  indented l = false /\ quoted l = false.
Proof.
  intros Hflush Hl.
  pose proof (flush_left_no_lead _ Hflush) as Hnl.
  apply readline_flags in Hl as (st & Hst & Htc & Hlt & ->). simpl.
  assert (s_indent st = 0) as ->.
  { destruct (decide ((strip raw).1 = [])) as [Hnil|Hne].
    - rewrite Hnil in Hst. by injection Hst as <-.
    - destruct (flush_left_scan ts _ Hne Hflush) as (st' & Hst' & _ & ? & _).
      congruence. }
  split; [done|]. rewrite Htc, Hlt.
  destruct (s_inIndent st); [done|]. simpl.
  destruct (Z.ltb_spec 0 (tab_count (strip raw).1)) as [Hpos|Hpos]; [|done].
  simpl. destruct (last_tab_lead (strip raw).1 0 0 Hpos) as [_ Hiff].
  destruct (Z.eqb_spec (last_tab 0 0 (strip raw).1 + 1)
                       (tab_count (strip raw).1)); [|done].
  exfalso. apply Hnl, Hiff. lia.
Qed.

(** X4: a raw line of which the text, that is the line without its final
    backslash, is not empty and starts with a rune that is no white space is
    classified for any tab stop, zero included: the text of the line is that
    text, it has no indentation, it is neither blank nor quoted, and it is
    tabular exactly when it holds a tab.  (The raw line that is only a
    backslash has an empty text and is blank.) *)
Theorem readline_flush_left (ts : Z) (raw : gostring) :
  (strip raw).1 <> [] ->
  flush_left (strip raw).1 ->
  exists l,
    readline ts raw = Some l
    /\ text l = (strip raw).1
    /\ indent l = 0
    /\ indented l = false
    /\ incomplete l = HasSuffix raw [backslash]
    /\ blank l = false
    /\ quoted l = false
    /\ (tabular l = true <-> tab ∈ (strip raw).1).
Proof.
  intros Hne Hflush.
  assert ((strip raw).2 = HasSuffix raw [backslash]) as Hinc
    by (unfold strip; by destruct (HasSuffix raw [backslash])).
  destruct (flush_left_scan ts _ Hne Hflush) as (st & Hst & Hin & Hi & Hc).
  destruct (readline_total_from ts raw st Hst) as (l & Hl).
  exists l. split; [done|].
  pose proof (flush_left_no_lead _ Hflush) as Hnl.
  pose proof Hl as Hl'.
  apply readline_flags in Hl' as (st' & Hst' & Htc & Hlt & ->).
  assert (st' = st) as -> by congruence. simpl.
  rewrite Hin, Hi, Hc, Htc, Hlt, Hinc. simpl.
  set (txt := (strip raw).1) in *.
  pose proof (tab_count_nonneg txt) as Hnn.
  pose proof (tab_count_zero txt) as Hz.
  assert ((0 <? tab_count txt) && (last_tab 0 0 txt + 1 =? tab_count txt) = false)
    as Hq.
  { destruct (Z.ltb_spec 0 (tab_count txt)) as [Hpos|Hpos]; [|done]. simpl.
    destruct (last_tab_lead txt 0 0 Hpos) as [_ Hiff].
    destruct (Z.eqb_spec (last_tab 0 0 txt + 1) (tab_count txt)); [|done].
    exfalso. apply Hnl, Hiff. lia. }
  rewrite Hq. repeat split; try done.
  - rewrite andb_true_r. intros H. apply Z.ltb_lt in H.
    destruct (decide (tab ∈ txt)) as [|Hn]; [done|]. apply Hz in Hn. lia.
  - rewrite andb_true_r. intros H. apply Z.ltb_lt.
    destruct (decide (tab_count txt = 0)) as [H0|H0]; [|lia].
    apply Hz in H0. done.
Qed.

Lemma readline_flush_left_witness :
  (strip (lit "a	b\")).1 <> []
  /\ flush_left (strip (lit "a	b\")).1
  /\ exists l, readline 0 (lit "a	b\") = Some l /\ text l = lit "a	b".
Proof.
  split; [discriminate|]. split; [vm_compute; reflexivity|].
  destruct (readline_flush_left 0 (lit "a	b\"))
    as (l & Hl & Ht & _); [discriminate|vm_compute; reflexivity|].
  exists l. split; [exact Hl|exact Ht].
Defined.

(** * ASCII lines: indentation and columns *)

Lemma byteZ_nonneg c : 0 <= byteZ c.
Proof. unfold byteZ. lia. Qed.

Lemma len_nonneg s : 0 <= len s.
Proof. unfold len. lia. Qed.

Lemma decoderune_ascii c s :
  byteZ c < 0x80 -> decoderune (c :: s) = (byteZ c, 1%nat).
Proof.
  intros H. unfold decoderune.
  destruct (Z.ltb_spec (byteZ c) 0x80); [done|lia].
Qed.

Lemma IsSpace_ascii c : byteZ c < 0x80 -> IsSpace (byteZ c) = isspace c.
Proof.
  pose proof (byteZ_nonneg c) as H0. intros H1.
  unfold IsSpace, isspace. cbv zeta.
  destruct (Z.leb_spec 0 (byteZ c)); [|lia].
  destruct (Z.leb_spec (byteZ c) 0xFF); [|lia]. simpl.
  destruct (Z.eqb_spec (byteZ c) 9), (Z.eqb_spec (byteZ c) 10),
    (Z.eqb_spec (byteZ c) 11), (Z.eqb_spec (byteZ c) 12),
    (Z.eqb_spec (byteZ c) 13), (Z.eqb_spec (byteZ c) 32),
    (Z.eqb_spec (byteZ c) 0x85), (Z.eqb_spec (byteZ c) 0xA0),
    (Z.leb_spec 9 (byteZ c)), (Z.leb_spec (byteZ c) 13); simpl; lia.
Qed.

Lemma isspace_tab : isspace tab = true.
Proof. reflexivity. Qed.

Lemma indentation_take s :
  take (length (indentation s)) s = indentation s.
Proof.
  induction s as [|c s IH]; simpl; [done|].
  destruct (isspace c); simpl; [by rewrite IH|done].
Qed.

Lemma indentation_all s :
  indentation s = s <-> drop (length (indentation s)) s = [].
Proof.
  induction s as [|c s IH]; simpl; [done|].
  destruct (isspace c); simpl; [|done].
  rewrite <- IH. split; [by intros [= ->]|by intros ->].
Qed.

Lemma next_tab_stop ts col :
  0 < ts -> 0 <= col ->
  col + ts - Z.rem (col + ts) ts = ts * (col / ts + 1)
  /\ col < ts * (col / ts + 1) <= col + ts.
Proof.
  intros Hts Hcol.
  rewrite Z.rem_mod_nonneg by lia.
  replace (col + ts) with (col + 1 * ts) by lia.
  rewrite Z.mod_add by lia.
  pose proof (Z.div_mod col ts) as Hdm.
  pose proof (Z.mod_pos_bound col ts Hts) as Hb. lia.
Qed.

Lemma indent_columns_bounds ts pre : forall col,
  0 < ts -> 0 <= col ->
  col + len pre <= indent_columns ts col pre <= col + ts * len pre.
Proof.
  induction pre as [|c pre IH]; intros col Hts Hcol; simpl.
  - unfold len. simpl. lia.
  - replace (len (c :: pre)) with (len pre + 1)
      by (unfold len; simpl length; lia).
    destruct (bool_decide (c = tab)).
    + destruct (next_tab_stop ts col Hts Hcol) as [_ Hn].
      specialize (IH (ts * (col / ts + 1)) Hts). nia.
    + specialize (IH (col + 1) Hts). nia.
Qed.

Lemma indent_columns_tabs ts (n : nat) : forall k,
  0 < ts ->
  indent_columns ts (ts * k) (replicate n tab) = ts * (k + Z.of_nat n).
Proof.
  induction n as [|n IH]; intros k Hts; cbn [replicate indent_columns].
  - f_equal. lia.
  - rewrite bool_decide_eq_true_2 by done.
    replace (ts * k) with (k * ts) at 1 by lia. rewrite Z.div_mul by lia.
    rewrite IH by done. f_equal. lia.
Qed.

(** The loop on an ASCII text, in the indentation: the bytes of the
    indentation are counted, and the column follows the tab stops as long
    as it fits the integers. *)
Lemma scan_loop_ascii ts s : forall i st st',
  is_ascii s ->
  s_inIndent st = true ->
  scan_loop ts st (runes_from i 0 s) = Some st' ->
  s_indentChars st' = s_indentChars st + len (indentation s)
  /\ (s_inIndent st' = true <-> indentation s = s)
  /\ (0 < ts -> 0 <= s_indent st -> s_indent st + ts * len s < 2 ^ 63 ->
      s_indent st' = indent_columns ts (s_indent st) (indentation s)).
Proof.
  induction s as [|c s IH]; intros i st st' Hs Hin; simpl.
  - intros [= <-]. unfold len. simpl. split; [lia|]. split; [done|done].
  - apply Forall_cons in Hs as [Hc Hs].
    rewrite (decoderune_ascii c s Hc). simpl.
    replace (len (c :: s)) with (len s + 1) by (unfold len; simpl length; lia).
    pose proof (len_nonneg s) as Hlen.
    unfold scan_step. rewrite Hin.
    destruct (Z.eqb_spec (byteZ c) 9) as [H9|H9].
    + apply byteZ_tab in H9 as ->. rewrite isspace_tab.
      unfold gorem. destruct (Z.eqb_spec ts 0) as [Hts|Hts]; simpl; [done|].
      intros H. apply IH in H as (H1 & H2 & H3); [|done|done].
      cbn [s_indent s_indentChars s_inIndent] in *.
      replace (len (tab :: indentation s)) with (len (indentation s) + 1)
        by (unfold len; simpl length; lia).
      split; [lia|]. split.
      * rewrite H2. split; [by intros ->|by intros [= ->]].
      * intros Hpos Hi Hb. cbn [indent_columns].
        rewrite ?bool_decide_eq_true_2 by done.
        destruct (next_tab_stop ts (s_indent st) Hpos Hi) as [Heq Hn].
        assert (wrap64 (s_indent st + ts) = s_indent st + ts) as Hw1
          by (apply wrap64_small; nia).
        rewrite Hw1 in H3. rewrite Heq in H3.
        rewrite wrap64_small in H3 by nia.
        apply H3; nia.
    + rewrite (IsSpace_ascii c Hc).
      destruct (isspace c) eqn:Hsp; simpl.
      * intros H. apply IH in H as (H1 & H2 & H3); [|done|done].
        cbn [s_indent s_indentChars s_inIndent] in *.
        replace (len (c :: indentation s)) with (len (indentation s) + 1)
          by (unfold len; simpl length; lia).
        split; [lia|]. split.
        -- rewrite H2. split; [by intros ->|by intros [= ->]].
        -- intros Hpos Hi Hb. cbn [indent_columns].
           rewrite bool_decide_eq_false_2
             by (intros ->; by apply H9).
           rewrite wrap64_small in H3 by nia. apply H3; nia.
      * destruct (scan_loop_after_indent ts (runes_from (i + 1) 0 s)
                    (Scan (s_indent st) (s_indentChars st) (s_lastTab st)
                          (s_tabCount st) false) eq_refl)
          as (st1 & -> & H1 & H2 & H3).
        intros [= <-]. simpl in *. unfold len. simpl.
        split; [lia|]. split; [by rewrite H1|]. by intros.
Qed.

Lemma strip_ascii raw : is_ascii raw -> is_ascii (strip raw).1.
Proof.
  unfold strip, is_ascii. destruct (HasSuffix raw [backslash]); simpl; [|done].
  apply Forall_take.
Qed.

Lemma strip_raw raw :
  raw = (strip raw).1 ++ (if (strip raw).2 then [backslash] else []).
Proof.
  destruct (HasSuffix raw [backslash]) eqn:H.
  - destruct (strip_incomplete raw H) as [-> Hr]. done.
  - unfold strip. rewrite H. simpl. by rewrite app_nil_r.
Qed.

(** X5: an ASCII raw line is its leading white space, then the text of the
    line, then the backslash when the line is incomplete: the classifier
    strips the indentation and the continuation mark and nothing else.  The
    line is blank exactly when no text is left. *)
Theorem readline_ascii_parts (ts : Z) (raw : gostring) (l : line) :
  is_ascii raw ->
  readline ts raw = Some l ->
  raw = indentation (strip raw).1 ++ text l
        ++ (if incomplete l then [backslash] else [])
  /\ (blank l = true <-> text l = [])
  /\ (forall c rest, text l = c :: rest -> isspace c = false).
Proof.
  intros Hraw Hl. pose proof (strip_ascii raw Hraw) as Htxt.
  apply readline_flags in Hl as (st & Hst & _ & _ & ->). simpl.
  apply scan_loop_ascii in Hst as (Hc & Hb & _); [|done|done]. simpl in Hc.
  rewrite Z.add_0_l in Hc. rewrite Hc. unfold len. rewrite Nat2Z.id.
  set (txt := (strip raw).1) in *.
  split; [|split].
  - rewrite app_assoc. rewrite <- (indentation_take txt) at 1.
    rewrite take_drop. apply strip_raw.
  - rewrite Hb. apply indentation_all.
  - intros c rest Hd.
    assert (forall s, match drop (length (indentation s)) s with
                      | [] => True
                      | c' :: _ => isspace c' = false
                      end) as Hhead.
    { clear. induction s as [|c' s IH]; simpl; [done|].
      destruct (isspace c') eqn:Hc'; simpl; [done|done]. }
    specialize (Hhead txt). by rewrite Hd in Hhead.
Qed.

Lemma readline_ascii_parts_witness :
  is_ascii (lit "  ab c\")
  /\ readline 4 (lit "  ab c\") = Some (Line (lit "ab c") 2 true true false false false)
  /\ lit "  ab c\" = indentation (strip (lit "  ab c\")).1 ++ lit "ab c" ++ [backslash].
Proof.
  assert (is_ascii (lit "  ab c\")) as Ha.
  { unfold is_ascii. rewrite Forall_forall. intros c Hc.
    apply list_elem_of_In in Hc. simpl in Hc.
    repeat (destruct Hc as [<-|Hc]; [reflexivity|]). done. }
  assert (readline 4 (lit "  ab c\")
          = Some (Line (lit "ab c") 2 true true false false false)) as H
    by (vm_compute; reflexivity).
  split; [exact Ha|]. split; [exact H|].
  exact (proj1 (readline_ascii_parts 4 _ _ Ha H)).
Defined.

(** X6: the indentation of an ASCII line in columns, with a positive tab
    stop and as long as the columns fit the integers: a tab leads to the
    next multiple of the tab stop and any other white space to the next
    column.  So the indentation is at least its number of bytes and at most
    the tab stop times that number; a line is indented exactly when it
    starts with white space; and [n] leading tabs indent by [n] tab
    stops. *)
Theorem indent_follows_tab_stops (ts : Z) (raw : gostring) (l : line) :
  0 < ts ->
  ts * len raw < 2 ^ 63 ->
  is_ascii raw ->
  readline ts raw = Some l ->
  indent l = indent_columns ts 0 (indentation (strip raw).1)
  /\ len (indentation (strip raw).1) <= indent l
     <= ts * len (indentation (strip raw).1)
  /\ (indented l = true <-> indentation (strip raw).1 <> [])
  /\ (forall n : nat,
        indentation (strip raw).1 = replicate n tab ->
        indent l = ts * Z.of_nat n).
Proof.
  intros Hts Hfit Hraw Hl. pose proof (strip_ascii raw Hraw) as Htxt.
  assert (len (strip raw).1 <= len raw) as Hlen.
  { rewrite (strip_raw raw) at 2. unfold len. rewrite length_app. lia. }
  apply readline_flags in Hl as (st & Hst & _ & _ & ->). simpl.
  apply scan_loop_ascii in Hst as (_ & _ & Hi); [|done|done]. simpl in Hi.
  rewrite Hi by nia. clear Hi.
  set (pre := indentation (strip raw).1).
  pose proof (indent_columns_bounds ts pre 0 Hts (Z.le_refl 0)) as Hb.
  split; [done|]. split; [lia|]. split; [|].
  - rewrite Z.ltb_lt. unfold len in Hb.
    destruct pre as [|c pre]; simpl length in Hb; split; try done; lia.
  - intros n Hn. rewrite Hn.
    replace 0 with (ts * 0) at 1 by lia.
    rewrite indent_columns_tabs by done. f_equal.
Qed.

Lemma indent_follows_tab_stops_witness :
  0 < 4
  /\ 4 * len (lit " 	x") < 2 ^ 63
  /\ is_ascii (lit " 	x")
  /\ readline 4 (lit " 	x") = Some (Line (lit "x") 4 true false false true false)
  /\ 4 = indent_columns 4 0 (indentation (strip (lit " 	x")).1).
Proof.
  assert (is_ascii (lit " 	x")) as Ha.
  { unfold is_ascii. repeat constructor. }
  assert (readline 4 (lit " 	x")
          = Some (Line (lit "x") 4 true false false true false)) as H
    by (vm_compute; reflexivity).
  split; [lia|]. split; [vm_compute; reflexivity|].
  split; [exact Ha|]. split; [exact H|].
  refine (proj1 (indent_follows_tab_stops 4 _ _ _ _ Ha H));
    [lia|vm_compute; reflexivity].
Defined.

(** * More on joining *)

(** X7: merging is associative: merging a third line into the merge of two
    lines gives the same line, text and flags, as merging the merge of the
    last two into the first. *)
Theorem concat_assoc (a b c : line) :
  concat (concat a b) c = concat a (concat b c).
Proof.
  destruct a as [ta ia da ca ba tba qa], b as [tb ib db cb bb tbb qb],
    c as [tc ic dc cc bc tbc qc].
  unfold concat. simpl. f_equal.
  - by rewrite <- !app_assoc.
  - by rewrite andb_assoc.
  - destruct tba, tbb, qb, tbc, qc; reflexivity.
  - destruct qa, tba, tbb, qb, tbc, qc; reflexivity.
Qed.

Lemma readline_incomplete ts raw l :
  readline ts raw = Some l -> incomplete l = HasSuffix raw [backslash].
Proof.
  intros Hl. apply readline_flags in Hl as (st & _ & _ & _ & ->). simpl.
  unfold strip. by destruct (HasSuffix raw [backslash]).
Qed.

Lemma prev_of_append st curr : prev_of (append_line st curr) = Some curr.
Proof. unfold prev_of, append_line. simpl. by apply list_lookup_middle. Qed.

Lemma readlines_loop_no_join f raws : forall st,
  Flag.join f = false ->
  Forall (fun raw => HasSuffix raw [backslash] = false) raws ->
  state_ok st ->
  (forall prev, prev_of st = Some prev -> incomplete prev = false) ->
  lines <$> readlines_loop f st raws
  = (fun ls => lines st ++ ls) <$> classify (Flag.tabstop f) raws.
Proof.
  unfold classify.
  induction raws as [|raw raws IH]; intros st Hj Hraws Hok Hprev; simpl.
  - by rewrite app_nil_r.
  - apply Forall_cons in Hraws as [Hraw Hraws].
    destruct (readline (Flag.tabstop f) raw) as [curr|] eqn:Hcurr; simpl; [|done].
    assert (incomplete curr = false) as Hinc
      by (by rewrite (readline_incomplete _ _ _ Hcurr)).
    assert (readlines_step (Flag.join f) st curr = Some (append_line st curr))
      as ->.
    { unfold readlines_step. unfold prev_of, state_ok in *.
      destruct (prevLine st) as [p|]; [|done]. simpl in Hprev.
      destruct (lookup_lt_is_Some_2 (lines st) p) as [prev Hp]; [lia|].
      rewrite Hp in *. simpl.
      by rewrite (Hprev prev eq_refl), Hj, andb_false_r. }
    simpl. rewrite IH; try done.
    + simpl. destruct (mapM (readline (Flag.tabstop f)) raws); simpl; [|done].
      by rewrite <- app_assoc.
    + unfold state_ok. simpl. rewrite length_app. simpl. lia.
    + intros prev. rewrite prev_of_append. by intros [= <-].
Qed.

(** X8: with short lines not joined and no raw line ending in a backslash,
    every raw line is a logical line of its own: the lines read are the raw
    lines classified one by one, in order. *)
Theorem readlines_without_joining (f : Flag.flags) (raws : list gostring) :
  Flag.join f = false ->
  Forall (fun raw => HasSuffix raw [backslash] = false) raws ->
  readlines f raws = classify (Flag.tabstop f) raws.
Proof.
  intros Hj Hraws.
  pose proof (readlines_loop_no_join f raws rstate0 Hj Hraws) as H.
  unfold readlines. simpl in H.
  destruct (readlines_loop f rstate0 raws) as [st|];
    destruct (classify (Flag.tabstop f) raws) as [ls|]; simpl in *.
  - apply H; [done|]. unfold prev_of. simpl. done.
  - exfalso. assert (Some (lines st) = None) as HF; [|done].
    apply H; [done|]. unfold prev_of. simpl. done.
  - exfalso. assert (None = Some ls) as HF; [|done].
    apply H; [done|]. unfold prev_of. simpl. done.
  - done.
Qed.

Lemma readlines_without_joining_witness :
  Flag.join Flag.default = false
  /\ Forall (fun raw => HasSuffix raw [backslash] = false) [lit "a"; lit ""; lit " b"]
  /\ readlines Flag.default [lit "a"; lit ""; lit " b"]
     = classify 4 [lit "a"; lit ""; lit " b"].
Proof.
  assert (Forall (fun raw => HasSuffix raw [backslash] = false)
            [lit "a"; lit ""; lit " b"]) as H by (repeat constructor).
  split; [reflexivity|]. split; [exact H|].
  exact (readlines_without_joining Flag.default _ eq_refl H).
Defined.

Lemma chain_incomplete j p p' rest :
  incomplete p = incomplete p' -> chain j p rest = chain j p' rest.
Proof. intros H. destruct rest; simpl; [done|]. by rewrite H. Qed.

Lemma readlines_loop_chain f raws : forall rest p,
  classify (Flag.tabstop f) raws = Some rest ->
  chain (Flag.join f) p rest = true ->
  readlines_loop f (RState [p] (Some 0%nat)) raws
  = Some (RState [foldl concat p rest] (Some 0%nat)).
Proof.
  unfold classify.
  induction raws as [|raw raws IH]; intros rest p; simpl.
  - by intros [= <-].
  - destruct (readline (Flag.tabstop f) raw) as [c|]; simpl; [|done].
    destruct (mapM (readline (Flag.tabstop f)) raws) as [rest'|] eqn:Hrest;
      simpl; [|done].
    intros [= <-]. simpl. rewrite !andb_true_iff. intros [[Hb Hi] Hc].
    unfold readlines_step. simpl. rewrite Hb, Hi. simpl.
    apply IH; [done|].
    by rewrite (chain_incomplete _ (concat p c) c).
Qed.

Lemma Join_merge_head a b ss sep :
  Join ((a ++ sep ++ b) :: ss) sep = Join (a :: b :: ss) sep.
Proof.
  rewrite !Join_cons. destruct ss; by rewrite <- !app_assoc.
Qed.

Lemma foldl_concat_text rest : forall p,
  text (foldl concat p rest) = Join (text p :: (text <$> rest)) [sp].
Proof.
  induction rest as [|c rest IH]; intros p; [done|].
  cbn [foldl]. rewrite IH.
  exact (Join_merge_head (text p) (text c) (text <$> rest) [sp]).
Qed.

Lemma foldl_concat_first rest : forall p,
  indent (foldl concat p rest) = indent p
  /\ indented (foldl concat p rest) = indented p.
Proof.
  induction rest as [|c rest IH]; intros p; simpl; [done|].
  destruct (IH (concat p c)) as [-> ->]. done.
Qed.

Lemma foldl_concat_incomplete rest : forall p,
  incomplete (foldl concat p rest) = incomplete (default p (last rest)).
Proof.
  induction rest as [|c rest IH]; intros p; simpl; [done|].
  rewrite IH. rewrite last_cons. destruct (last rest); done.
Qed.

(** X9: a run of raw lines in which every line after the first is not
    blank and follows an incomplete line (or short lines are joined) is read
    as one logical line: its text is the texts of the lines joined with
    single spaces, its indentation is that of the first line, and it is
    incomplete when the last line is. *)
Theorem readlines_merges_chain (f : Flag.flags) (raws : list gostring)
    (l1 : line) (rest : list line) :
  classify (Flag.tabstop f) raws = Some (l1 :: rest) ->
  chain (Flag.join f) l1 rest = true ->
  readlines f raws = Some [foldl concat l1 rest]
  /\ text (foldl concat l1 rest) = Join (text <$> l1 :: rest) [sp]
  /\ indent (foldl concat l1 rest) = indent l1
  /\ indented (foldl concat l1 rest) = indented l1
  /\ incomplete (foldl concat l1 rest) = incomplete (default l1 (last rest)).
Proof.
  intros Hcl Hchain. split; [|split; [apply foldl_concat_text|]].
  - unfold readlines. destruct raws as [|raw raws]; [done|].
    unfold classify in Hcl. simpl in Hcl. simpl.
    destruct (readline (Flag.tabstop f) raw) as [c|]; simpl in *; [|done].
    destruct (mapM (readline (Flag.tabstop f)) raws) as [rest'|] eqn:Hrest;
      simpl in Hcl; [|done].
    injection Hcl as -> ->.
    change (append_line rstate0 l1) with (RState [l1] (Some 0%nat)).
    by rewrite (readlines_loop_chain f raws rest l1).
  - destruct (foldl_concat_first rest l1) as [-> ->].
    split; [done|]. split; [done|]. apply foldl_concat_incomplete.
Qed.

Lemma readlines_merges_chain_witness :
  classify 4 [lit "  a\"; lit "b\"; lit "	c"]
  = Some [Line (lit "a") 2 true true false false false;
          Line (lit "b") 0 false true false false false;
          Line (lit "c") 4 true false false false true]
  /\ readlines Flag.default [lit "  a\"; lit "b\"; lit "	c"]
     = Some [Line (lit "a b c") 2 true false false true false].
Proof.
  assert (classify 4 [lit "  a\"; lit "b\"; lit "	c"]
          = Some [Line (lit "a") 2 true true false false false;
                  Line (lit "b") 0 false true false false false;
                  Line (lit "c") 4 true false false false true]) as H
    by (vm_compute; reflexivity).
  split; [exact H|].
  exact (proj1 (readlines_merges_chain Flag.default _ _ _ H eq_refl)).
Defined.

Lemma Join_snoc xs c sep :
  xs <> [] -> Join (xs ++ [c]) sep = Join xs sep ++ sep ++ c.
Proof.
  induction xs as [|x xs IH]; intros Hne; [done|].
  destruct xs as [|y xs]; [done|].
  change ((x :: y :: xs) ++ [c]) with (x :: ((y :: xs) ++ [c])).
  rewrite (Join_cons x), IH by done. rewrite (Join_cons x (y :: xs)).
  simpl app. by rewrite <- !app_assoc.
Qed.

Lemma Join_merge_last xs a b sep :
  Join (xs ++ [a ++ sep ++ b]) sep = Join (xs ++ [a; b]) sep.
Proof.
  destruct (decide (xs = [])) as [->|Hne]; [done|].
  rewrite Join_snoc by done.
  change [a; b] with ([a] ++ [b]). rewrite (app_assoc xs [a] [b]).
  rewrite (Join_snoc (xs ++ [a])) by (by destruct xs).
  rewrite (Join_snoc xs) by done.
  by rewrite <- !app_assoc.
Qed.

Lemma readlines_step_inv j st seen curr :
  join_inv st seen ->
  exists st', readlines_step j st curr = Some st'
              /\ join_inv st' (seen ++ [curr]).
Proof.
  intros (Hok & HJ & Hnil & Hlen & Hbl).
  assert (join_inv (append_line st curr) (seen ++ [curr])) as Happ.
  { unfold join_inv. simpl. rewrite !fmap_app, !length_app. simpl.
    split; [unfold state_ok; simpl; rewrite length_app; simpl; lia|].
    split.
    - destruct (decide (seen = [])) as [->|Hs].
      + rewrite (proj2 Hnil) by done. done.
      + assert (lines st <> []) as Hl by (by rewrite Hnil).
        rewrite (Join_snoc (text <$> lines st)) by (by destruct (lines st)).
        rewrite (Join_snoc (text <$> seen)) by (by destruct seen).
        by rewrite HJ.
    - split; [split; intros H; by apply app_nil in H as [_ ?]|].
      split; [lia|]. apply Forall_app. split.
      + eapply Forall_impl; [exact Hbl|]. simpl. intros l Hl Hb.
        apply elem_of_app. left. by apply Hl.
      + constructor; [|constructor]. intros _. apply elem_of_app. right.
        by apply list_elem_of_singleton. }
  unfold readlines_step. unfold state_ok in Hok.
  destruct (prevLine st) as [p|] eqn:Hp; [|by eauto].
  destruct (lookup_lt_is_Some_2 (lines st) p) as [prev Hprev]; [lia|].
  rewrite Hprev. simpl.
  destruct (negb (blank curr) && (incomplete prev || j)) eqn:Hcond; [|by eauto].
  eexists. split; [done|].
  apply andb_true_iff in Hcond as [Hcb _]. apply negb_true_iff in Hcb.
  destruct (lines st) as [|l0 ls0 _] using rev_ind; [simpl in *; lia|].
  rewrite length_app in Hok. simpl in Hok.
  assert (p = length ls0) as -> by lia.
  rewrite list_lookup_middle in Hprev by done. injection Hprev as ->.
  rewrite insert_app_r_alt by lia. rewrite Nat.sub_diag. simpl.
  assert (seen <> []) as Hs.
  { intros Hs. apply Hnil in Hs. by destruct ls0. }
  unfold join_inv. simpl. rewrite !fmap_app, !length_app in *. simpl in *.
  split; [unfold state_ok; simpl; rewrite length_app; simpl; lia|].
  split.
  - change (text prev ++ sp :: text curr)
      with (text prev ++ [sp] ++ text curr).
    rewrite Join_merge_last.
    change [text prev; text curr] with ([text prev] ++ [text curr]).
    rewrite (app_assoc (text <$> ls0) [text prev] [text curr]).
    rewrite (Join_snoc ((text <$> ls0) ++ [text prev])) by (by destruct ls0).
    rewrite (Join_snoc (text <$> seen)) by (by destruct seen).
    by rewrite HJ.
  - split; [split; intros H; by apply app_nil in H as [_ ?]|].
    split; [lia|]. apply Forall_app in Hbl as [Hbl _].
    apply Forall_app. split.
    + eapply Forall_impl; [exact Hbl|]. simpl. intros l Hl Hb.
      apply elem_of_app. left. by apply Hl.
    + constructor; [|constructor]. intros Hbb.
      apply andb_true_iff in Hbb as [_ Hbb]. congruence.
Qed.

Lemma readlines_loop_inv f raws : forall st seen ls,
  join_inv st seen ->
  classify (Flag.tabstop f) raws = Some ls ->
  exists st', readlines_loop f st raws = Some st'
              /\ join_inv st' (seen ++ ls).
Proof.
  unfold classify.
  induction raws as [|raw raws IH]; intros st seen ls Hinv; simpl.
  - intros [= <-]. rewrite app_nil_r. by eauto.
  - destruct (readline (Flag.tabstop f) raw) as [c|]; simpl; [|done].
    destruct (mapM (readline (Flag.tabstop f)) raws) as [ls'|] eqn:Hls;
      simpl; [|done].
    intros [= <-].
    destruct (readlines_step_inv (Flag.join f) st seen c Hinv) as (st1 & -> & H1).
    simpl. destruct (IH st1 (seen ++ [c]) ls' H1 eq_refl) as (st' & -> & H2).
    exists st'. split; [done|]. by rewrite <- app_assoc in H2.
Qed.

Lemma join_inv_start : join_inv rstate0 [].
Proof.
  unfold join_inv, state_ok. simpl. repeat split; done.
Qed.

(** X10: joining loses and adds no text: the texts of the logical lines,
    joined with single spaces, are the texts of the classified raw lines
    joined with single spaces; and there are never more logical lines than
    raw lines. *)
Theorem readlines_keeps_text (f : Flag.flags) (raws : list gostring)
    (ls : list line) :
  classify (Flag.tabstop f) raws = Some ls ->
  exists out,
    readlines f raws = Some out
    /\ Join (text <$> out) [sp] = Join (text <$> ls) [sp]
    /\ (length out <= length ls)%nat
    /\ (out = [] <-> raws = []).
Proof.
  intros Hcl.
  destruct (readlines_loop_inv f raws rstate0 [] ls join_inv_start Hcl)
    as (st & Hst & _ & HJ & Hnil & Hlen & _).
  exists (lines st). unfold readlines. rewrite Hst. simpl in *.
  split; [done|]. split; [done|]. split; [done|].
  rewrite Hnil. unfold classify in Hcl. apply mapM_Some in Hcl.
  split; intros ->.
  - by apply Forall2_nil_inv_r in Hcl.
  - by apply Forall2_nil_inv_l in Hcl.
Qed.

Lemma readlines_keeps_text_witness :
  classify 4 [lit "a\"; lit " b"; lit "c"]
  = Some [Line (lit "a") 0 false true false false false;
          Line (lit "b") 1 true false false false false;
          Line (lit "c") 0 false false false false false]
  /\ exists out, readlines Flag.default [lit "a\"; lit " b"; lit "c"] = Some out
                 /\ Join (text <$> out) [sp] = lit "a b c".
Proof.
  assert (classify 4 [lit "a\"; lit " b"; lit "c"]
          = Some [Line (lit "a") 0 false true false false false;
                  Line (lit "b") 1 true false false false false;
                  Line (lit "c") 0 false false false false false]) as H
    by (vm_compute; reflexivity).
  split; [exact H|].
  destruct (readlines_keeps_text Flag.default _ _ H) as (out & H1 & H2 & _).
  exists out. split; [exact H1|exact H2].
Defined.

(** X11: merging never gives a blank line: every blank logical line is the
    line of one blank raw line, as it was classified. *)
Theorem blank_lines_are_raw_lines (f : Flag.flags) (raws : list gostring)
    (ls out : list line) (l : line) :
  classify (Flag.tabstop f) raws = Some ls ->
  readlines f raws = Some out ->
  l ∈ out ->
  blank l = true ->
  l ∈ ls.
Proof.
  intros Hcl Hout Hl Hb.
  destruct (readlines_loop_inv f raws rstate0 [] ls join_inv_start Hcl)
    as (st & Hst & _ & _ & _ & _ & Hbl).
  unfold readlines in Hout. rewrite Hst in Hout. injection Hout as <-.
  rewrite Forall_forall in Hbl. by apply Hbl.
Qed.

Lemma blank_lines_are_raw_lines_witness :
  Line [] 0 false false true false false
  ∈ [Line (lit "a") 0 false false false false false;
     Line [] 0 false false true false false].
Proof.
  apply (blank_lines_are_raw_lines Flag.default [lit "a"; lit ""]
           [Line (lit "a") 0 false false false false false;
            Line [] 0 false false true false false]
           [Line (lit "a") 0 false false false false false;
            Line [] 0 false false true false false]).
  - vm_compute. reflexivity.
  - vm_compute. reflexivity.
  - apply list_elem_of_In. right. left. reflexivity.
  - reflexivity.
Defined.

(** * More on the formatter *)

Lemma format_loop_from_plain f ls o :
  format_loop f ls (FState [] o) = with_front o <$> format_loop f ls fstate0.
Proof.
  rewrite <- format_loop_front. unfold with_front, fstate0. simpl.
  by rewrite app_nil_r.
Qed.

(** X12: the formatter handles what follows a line that is not tabular on
    its own: the output for two sequences in a row, the first ending with
    such a line, is the output for the first followed by the output for the
    second, and it panics when either does. *)
Theorem format_app (f : Flag.flags) (ls1 ls2 : list line) :
  ends_plain ls1 ->
  format f (ls1 ++ ls2)
  = (o1 ← format f ls1; o2 ← format f ls2; Some (o1 ++ o2)).
Proof.
  intros Hends.
  destruct (Z.le_gt_cases 0 (Flag.tabstop f)) as [Hts|Hts];
    [|by rewrite !format_negative by lia].
  rewrite !format_unfold by done. rewrite format_loop_app.
  destruct (format_loop f ls1 fstate0) as [st1|] eqn:Hst1; simpl; [|done].
  assert (tabw st1 = []) as Ht1
    by (by apply (format_loop_ends_plain f ls1 fstate0 st1)).
  destruct st1 as [t1 b1]. simpl in Ht1. subst t1. simpl.
  rewrite format_loop_from_plain.
  destruct (format_loop f ls2 fstate0) as [st2|]; simpl; [|done].
  by rewrite !app_nil_r, <- app_assoc.
Qed.

Lemma format_app_witness :
  ends_plain [Line (lit "a") 0 false false false false false]
  /\ format Flag.default
       ([Line (lit "a") 0 false false false false false]
          ++ [Line (lit "b	c") 0 false false false true false])
     = Some (lit "a
b c 
").
Proof.
  split; [reflexivity|].
  rewrite (format_app Flag.default
             [Line (lit "a") 0 false false false false false]
             [Line (lit "b	c") 0 false false false true false]);
    [vm_compute; reflexivity|reflexivity].
Defined.

Lemma slice_Repeat_None c (n : nat) k :
  slice (Repeat c n) 0 k = None <-> ~ 0 <= k <= Z.of_nat n.
Proof.
  unfold slice, Repeat, len. rewrite length_replicate.
  destruct (Z.leb_spec 0 0); [|lia].
  destruct (Z.leb_spec 0 k), (Z.leb_spec k (Z.of_nat n)); simpl;
    split; (done || lia || (intros; lia)).
Qed.

Lemma format_switch_ok f l :
  (quoted l = true -> 0 <= Flag.tabstop f <= 256) ->
  (quoted l = false -> indented l = true -> 0 <= indent l <= 256) ->
  is_Some (format_switch f l).
Proof.
  intros Hq Hi. unfold format_switch.
  destruct (blank l); [by eauto|].
  destruct (quoted l); [|destruct (indented l); [|by eauto]].
  - unfold spaces. rewrite slice_Repeat by (apply Hq; done). simpl. eauto.
  - specialize (Hi eq_refl eq_refl).
    unfold ats, spaces. rewrite !slice_Repeat by lia. simpl.
    destruct (Wrap_filler (Repeat (ascii_of_nat 64) (Z.to_nat (indent l)))
                (text l) (Flag.length f)) as [rest Hrest];
      [by apply Repeat_nospace|].
    rewrite Hrest.
    replace (indent l)
      with (len (Repeat (ascii_of_nat 64) (Z.to_nat (indent l)))) at 2
      by (unfold len, Repeat; rewrite length_replicate; lia).
    rewrite slice_drop_prefix. simpl. eauto.
Qed.

Lemma format_switch_bad f l :
  blank l = false ->
  (quoted l = true /\ ~ 0 <= Flag.tabstop f <= 256)
  \/ (quoted l = false /\ indented l = true /\ ~ 0 <= indent l <= 256) ->
  format_switch f l = None.
Proof.
  intros Hb H. unfold format_switch. rewrite Hb.
  destruct H as [[-> Hts]|(-> & -> & Hind)].
  - unfold spaces.
    assert (slice (Repeat sp 256) 0 (Flag.tabstop f) = None) as ->
      by (apply slice_Repeat_None; lia).
    done.
  - unfold ats.
    assert (slice (Repeat (ascii_of_nat 64) 256) 0 (indent l) = None) as ->
      by (apply slice_Repeat_None; lia).
    done.
Qed.

Lemma format_switch_None f l :
  format_switch f l = None
  <-> blank l = false
      /\ ((quoted l = true /\ ~ 0 <= Flag.tabstop f <= 256)
          \/ (quoted l = false /\ indented l = true
              /\ ~ 0 <= indent l <= 256)).
Proof.
  split; [|intros [? ?]; by apply format_switch_bad].
  intros HN.
  destruct (blank l) eqn:Hb;
    [unfold format_switch in HN; by rewrite Hb in HN|].
  split; [done|].
  destruct (quoted l) eqn:Hq.
  - left. split; [done|]. intros Hts.
    destruct (format_switch_ok f l) as [t Ht]; [done|congruence|congruence].
  - right. split; [done|].
    destruct (indented l) eqn:Hi.
    + split; [done|]. intros Hind.
      destruct (format_switch_ok f l) as [t Ht]; [congruence|done|congruence].
    + destruct (format_switch_ok f l) as [t Ht]; congruence.
Qed.

Lemma format_line_None f l st :
  format_line f l st = None <-> bad_line f l.
Proof.
  unfold format_line, bad_line. rewrite <- format_switch_None.
  destruct (tabular l); [split; [done|by intros [? _]]|].
  destruct (format_switch f l); simpl; split; try done; by intros [_ ?].
Qed.

Lemma format_loop_None f ls : forall st,
  format_loop f ls st = None <-> Exists (bad_line f) ls.
Proof.
  induction ls as [|l ls IH]; intros st; simpl.
  - split; [done|]. intros H. by apply Exists_nil in H.
  - rewrite Exists_cons.
    destruct (format_line f l st) as [st1|] eqn:H1; simpl.
    + rewrite IH. split; [by auto|]. intros [Hbad|?]; [|done].
      apply (format_line_None f l st) in Hbad. congruence.
    + split; [|done]. intros _. left. by apply (format_line_None f l st).
Qed.

(** X13: the formatter panics in exactly two cases.  The tab stop is
    negative: the column writer panics when it is made, whatever the lines,
    none included.  Or the sequence holds a line it has to wrap with more
    filler than the 256 bytes it has: a quoted line when the tab stop is
    above 256, or an indented line that is not quoted when its indentation is
    not between 0 and 256.  Blank and tabular lines never make it panic. *)
Theorem format_panics_iff (f : Flag.flags) (ls : list line) :
  format f ls = None <-> Flag.tabstop f < 0 \/ Exists (bad_line f) ls.
Proof.
  destruct (Z.le_gt_cases 0 (Flag.tabstop f)) as [Hts|Hts].
  - rewrite format_unfold by done.
    rewrite <- (format_loop_None f ls fstate0).
    destruct (format_loop f ls fstate0); simpl; split; try done.
    + intros [?|?]; [lia|done].
    + by right.
  - rewrite format_negative by lia. split; [by left|done].
Qed.

Example format_panics_negative_tabstop :
  format {| Flag.length := 120; Flag.tabstop := -1; Flag.join := false |} []
  = None.
Proof. reflexivity. Qed.

Example format_panics_wide_tabstop :
  format {| Flag.length := 1000; Flag.tabstop := 300; Flag.join := false |}
         [Line (lit "q") 300 true false false false true] = None.
Proof. reflexivity. Qed.

Lemma readlines_loop_margin f raws : forall st st',
  Forall (fun raw => flush_left (strip raw).1) raws ->
  Forall (fun l => indented l = false /\ quoted l = false) (lines st) ->
  readlines_loop f st raws = Some st' ->
  Forall (fun l => indented l = false /\ quoted l = false) (lines st').
Proof.
  induction raws as [|raw raws IH]; intros st st' Hraws Hst; simpl.
  - by intros [= <-].
  - apply Forall_cons in Hraws as [Hraw Hraws].
    destruct (readline (Flag.tabstop f) raw) as [c|] eqn:Hc; simpl; [|done].
    pose proof (readline_flush_left_flags _ _ _ Hraw Hc) as Hcf.
    destruct (readlines_step (Flag.join f) st c) as [st1|] eqn:H1; simpl; [|done].
    apply IH; [done|].
    revert H1. unfold readlines_step.
    assert (Forall (fun l => indented l = false /\ quoted l = false)
              (lines (append_line st c))) as Happ.
    { simpl. apply Forall_app. split; [done|]. by constructor. }
    destruct (prevLine st) as [p|]; [|by intros [= <-]].
    destruct (lines st !! p) as [prev|] eqn:Hprev; simpl; [|done].
    destruct (negb (blank c) && (incomplete prev || Flag.join f));
      intros [= <-]; [|done].
    simpl. apply Forall_insert; [done|].
    rewrite Forall_lookup in Hst. destruct (Hst p prev Hprev) as [Hi Hq].
    simpl. rewrite Hi, Hq. done.
Qed.

(** X14: on input that is not indented the program panics exactly when the
    tab stop is negative: when every raw line, the final backslash apart, is
    empty or starts with a rune that is no white space, the lines are read
    and formatted for every tab stop from zero on, zero and those beyond the
    filler strings included, and with a negative tab stop the lines are read
    and the formatter panics. *)
Theorem ted_flush_left_total (f : Flag.flags) (raws : list gostring) :
  Forall (fun raw => flush_left (strip raw).1) raws ->
  is_Some (readlines f raws)
  /\ (0 <= Flag.tabstop f -> is_Some (ted f raws))
  /\ (Flag.tabstop f < 0 -> ted f raws = None).
Proof.
  intros Hraws. unfold ted, readlines.
  assert (exists st, readlines_loop f rstate0 raws = Some st) as [st Hst].
  { assert (forall st, state_ok st ->
              exists st', readlines_loop f st raws = Some st') as Hloop.
    { induction raws as [|raw raws IH]; intros st0 Hok; simpl; [by eauto|].
      apply Forall_cons in Hraws as [Hraw Hraws].
      destruct (readline (Flag.tabstop f) raw) as [c|] eqn:Hc.
      - simpl.
        destruct (readlines_step_ok (Flag.join f) st0 c Hok)
          as (st1 & -> & Hok1 & _).
        simpl. by apply IH.
      - exfalso. apply (flush_left_no_tab _ Hraw).
        revert Hc. unfold readline.
        destruct (strip raw) as [txt incompl]. simpl.
        destruct (scan_loop (Flag.tabstop f) scan0 (range txt))
          as [st1|] eqn:Hs; simpl.
        + destruct (readline_slice_ok _ txt st1 Hs) as [-> _]. done.
        + intros _. by apply scan_loop_None in Hs as (_ & _ & ?). }
    by apply Hloop. }
  rewrite Hst. simpl. split; [by eauto|].
  split; [|by apply format_negative].
  intros Hts.
  pose proof (readlines_loop_margin f raws rstate0 st Hraws
                ltac:(constructor) Hst) as Hm.
  destruct (format f (lines st)) as [o|] eqn:Ho; [by eauto|].
  exfalso. rewrite format_unfold in Ho by done.
  assert (format_loop f (lines st) fstate0 = None) as HN
    by (by destruct (format_loop f (lines st) fstate0)).
  apply format_loop_None in HN.
  apply Exists_exists in HN as (l & Hl & _ & _ & Hbad).
  rewrite Forall_forall in Hm. destruct (Hm l Hl) as [Hi Hq].
  destruct Hbad as [[? _]|(_ & ? & _)]; congruence.
Qed.

Lemma ted_flush_left_total_witness :
  Forall (fun raw => flush_left (strip raw).1) [lit "a	b"; lit ""; lit "c\"]
  /\ is_Some (ted {| Flag.length := 10; Flag.tabstop := 0; Flag.join := true |}
                  [lit "a	b"; lit ""; lit "c\"]).
Proof.
  assert (Forall (fun raw => flush_left (strip raw).1)
            [lit "a	b"; lit ""; lit "c\"]) as H.
  { repeat constructor; vm_compute; reflexivity. }
  split; [exact H|].
  refine (proj1 (proj2 (ted_flush_left_total _ _ H)) _). simpl. lia.
Defined.

Lemma scan_loop_leading_tabs ts (n : nat) rest : forall i st st',
  s_inIndent st = true ->
  scan_loop ts st (runes_from i 0 (replicate n tab ++ rest)) = Some st' ->
  s_indentChars st + Z.of_nat n <= s_indentChars st'.
Proof.
  induction n as [|n IH]; intros i st st' Hin.
  - simpl. intros H. apply scan_loop_chars in H. lia.
  - cbn [replicate app runes_from].
    rewrite (decoderune_ascii tab (replicate n tab ++ rest)) by reflexivity.
    change (byteZ tab) with 9. simpl.
    unfold scan_step at 1. rewrite Hin. simpl.
    destruct (gorem _ _); simpl; [|done].
    intros H. apply IH in H; [|done]. simpl in H. lia.
Qed.

(** X15: the text of a quoted line holds no tab: all the tabs of such a
    line are in the indentation that is stripped. *)
Theorem quoted_text_has_no_tab (ts : Z) (raw : gostring) (l : line) :
  readline ts raw = Some l ->
  quoted l = true ->
  tab ∉ text l.
Proof.
  intros Hl Hq.
  apply readline_flags in Hl as (st & Hst & Htc & Hlt & ->). simpl in *.
  rewrite Htc, Hlt in Hq.
  apply andb_true_iff in Hq as [Hq He]. apply andb_true_iff in Hq as [_ Hpos].
  apply Z.ltb_lt in Hpos. apply Z.eqb_eq in He.
  destruct (last_tab_lead (strip raw).1 0 0 Hpos) as [_ Hiff].
  destruct (proj1 Hiff ltac:(lia)) as (n & rest & Hn & Htxt & Hrest).
  rewrite Htxt in *.
  pose proof (scan_loop_leading_tabs ts n rest 0 scan0 st eq_refl Hst) as Hch.
  simpl in Hch.
  rewrite drop_app_ge by (rewrite length_replicate; lia).
  intros Hin. apply Hrest. by eapply subseteq_drop.
Qed.

Lemma quoted_text_has_no_tab_witness :
  readline 4 (lit "		a b") = Some (Line (lit "a b") 8 true false false false true)
  /\ tab ∉ lit "a b".
Proof.
  assert (readline 4 (lit "		a b")
          = Some (Line (lit "a b") 8 true false false false true)) as H
    by (vm_compute; reflexivity).
  split; [exact H|].
  exact (quoted_text_has_no_tab 4 _ _ H eq_refl).
Defined.
